(** * Blog dashboard: slug derivation, form schema, listing and editor handlers

    A shallow embedding of the three source files of the dashboard

    - the edit form ([blogSchema], [generateSlug], the title field's
      [onChange], [onSubmit] and the two action buttons),
    - the listing page ([fetchBlogs], [clearFilters], [confirmDelete],
      [handleDelete], the [filterStatus] effect),
    - the editor adapter ([images_upload_handler]),

    followed by the properties proved about them.

    Strings are [string]s whose characters are the code units U+0000 to
    U+00FF; on that alphabet [String.prototype.toLowerCase] is a
    character-wise map, written out below. *)

From Stdlib Require Import String Ascii List Bool Arith Lia.
Import ListNotations.
Open Scope string_scope.

(* ===================================================================== *)
(** ** Strings, character classes and regular expressions *)
(* ===================================================================== *)

Module Js.

(** The code unit of a character. *)
Definition code (c : ascii) : nat := nat_of_ascii c.

Definition between (lo hi : nat) (c : ascii) : bool :=
  ((lo <=? code c) && (code c <=? hi))%nat.

(** The character class [[a-z0-9]]. *)
Definition is_lower_alnum (c : ascii) : bool :=
  between 97 122 c || between 48 57 c.

(** The character class [[^a-z0-9]]. *)
Definition not_lower_alnum (c : ascii) : bool := negb (is_lower_alnum c).

Definition hyphen : ascii := "-"%char.

Definition is_hyphen (c : ascii) : bool := Ascii.eqb c hyphen.

(** Upper-case letters of the alphabet: A-Z, and U+00C0 to U+00DE without
    the multiplication sign U+00D7.  Each has its lower-case form 32 code
    units above. *)
Definition is_upper (c : ascii) : bool :=
  between 65 90 c || (between 192 222 c && negb (code c =? 215)%nat).

Definition toLowerCase_char (c : ascii) : ascii :=
  if is_upper c then ascii_of_nat (code c + 32) else c.

(** [s.toLowerCase()], on strings of the alphabet above.  (Outside it the
    lower-case form of a character can be longer than the character, as
    for U+0130; no string of this model holds such a character.) *)
Fixpoint toLowerCase (s : string) : string :=
  match s with
  | EmptyString => EmptyString
  | String c rest => String (toLowerCase_char c) (toLowerCase rest)
  end.

(** [!s] for a string: only the empty string is falsy. *)
Definition falsy (s : string) : bool :=
  match s with EmptyString => true | String _ _ => false end.

(** *** Global replacement

    [s.replace(re, repl)] for a regular expression with the [g] flag scans
    the input from left to right.  At each position outside the previous
    match the pattern is tried; a match of [n] characters is replaced by
    [repl] and the scan resumes behind it, a failure copies the character.

    A pattern is given by its matcher: [m at_start rest] is the length of
    the match of the pattern at the current position, where [rest] is the
    input from that position on and [at_start] tells whether the position
    is the beginning of the input (for [^]); [rest = ""] is the end of the
    input (for [$]). *)

Definition matcher := bool -> string -> option nat.

(** [skip] is the number of characters of the previous match that are
    still ahead of the current position. *)
Fixpoint replace_from (m : matcher) (repl : string)
         (skip : nat) (at_start : bool) (s : string) : string :=
  match s with
  | EmptyString =>
      match skip, m at_start EmptyString with
      | 0, Some _ => repl
      | _, _ => EmptyString
      end
  | String c rest =>
      match skip with
      | S k => replace_from m repl k false rest
      | 0 =>
          match m at_start s with
          | Some (S n) => repl ++ replace_from m repl n false rest
          | Some 0 => repl ++ String c (replace_from m repl 0 false rest)
          | None => String c (replace_from m repl 0 false rest)
          end
      end
  end.

Definition replace_global (m : matcher) (repl : string) (s : string) : string :=
  replace_from m repl 0 true s.

(** Length of the longest prefix of [s] whose characters satisfy [p]. *)
Fixpoint run_length (p : ascii -> bool) (s : string) : nat :=
  match s with
  | EmptyString => 0
  | String c rest => if p c then S (run_length p rest) else 0
  end.

(** The pattern [/[^a-z0-9]+/]: the greedy [+] takes the whole run of
    characters outside [[a-z0-9]] and needs at least one. *)
Definition match_non_alnum_run : matcher :=
  fun _ s =>
    match run_length not_lower_alnum s with
    | 0 => None
    | n => Some n
    end.

(** The pattern [/(^-|-$)/]: a hyphen at the beginning of the input, or
    else a hyphen that is the last character of the input. *)
Definition match_edge_hyphen : matcher :=
  fun at_start s =>
    match s with
    | String c rest =>
        if is_hyphen c && at_start then Some 1
        else if is_hyphen c && falsy rest then Some 1
        else None
    | EmptyString => None
    end.

(** The expression shared by [generateSlug] and the title field's
    [onChange]:
    [title.toLowerCase().replace(/[^a-z0-9]+/g, '-').replace(/(^-|-$)/g, '')] *)
Definition slugify (title : string) : string :=
  replace_global match_edge_hyphen ""
    (replace_global match_non_alnum_run "-" (toLowerCase title)).

(** *** Regular expressions tested against a whole string

    The patterns given to [RegExp.prototype.test] below are anchored at
    both ends ([^...$], no [m] flag), so the test succeeds exactly when the
    whole input belongs to the language of the body. *)

Inductive regex : Type :=
| Empty : regex                           (* matches nothing *)
| Eps : regex                             (* the empty string *)
| Class : (ascii -> bool) -> regex        (* one character of a class *)
| Seq : regex -> regex -> regex
| Alt : regex -> regex -> regex
| Star : regex -> regex.

(** [r+] *)
Definition Plus (r : regex) : regex := Seq r (Star r).

(** The language of a regular expression. *)
Inductive matches : regex -> string -> Prop :=
| MEps : matches Eps ""
| MClass p c : p c = true -> matches (Class p) (String c "")
| MSeq r1 r2 s1 s2 :
    matches r1 s1 -> matches r2 s2 -> matches (Seq r1 r2) (s1 ++ s2)
| MAltL r1 r2 s : matches r1 s -> matches (Alt r1 r2) s
| MAltR r1 r2 s : matches r2 s -> matches (Alt r1 r2) s
| MStar0 r : matches (Star r) ""
| MStarS r s1 s2 :
    matches r s1 -> matches (Star r) s2 -> matches (Star r) (s1 ++ s2).

Fixpoint nullable (r : regex) : bool :=
  match r with
  | Empty => false
  | Eps => true
  | Class _ => false
  | Seq r1 r2 => nullable r1 && nullable r2
  | Alt r1 r2 => nullable r1 || nullable r2
  | Star _ => true
  end.

(** What remains to be matched after reading [c]. *)
Fixpoint deriv (c : ascii) (r : regex) : regex :=
  match r with
  | Empty => Empty
  | Eps => Empty
  | Class p => if p c then Eps else Empty
  | Seq r1 r2 =>
      if nullable r1 then Alt (Seq (deriv c r1) r2) (deriv c r2)
      else Seq (deriv c r1) r2
  | Alt r1 r2 => Alt (deriv c r1) (deriv c r2)
  | Star r1 => Seq (deriv c r1) (Star r1)
  end.

(** [/^r$/.test(s)] *)
Fixpoint test_anchored (r : regex) (s : string) : bool :=
  match s with
  | EmptyString => nullable r
  | String c rest => test_anchored (deriv c r) rest
  end.

End Js.

Import Js.
(* ===================================================================== *)
(** ** Handlers: state, exceptions and a log of effects *)
(* ===================================================================== *)

(** An [async] handler of a component is run to completion against the
    state [W] of its page; a [throw] leaves the state as it is at that
    point and carries the thrown value to the nearest [catch]. *)

Module Handler.

Section Monad.

Context {W E : Type}.

Inductive completion (A : Type) : Type :=
| Normal : A -> completion A
| Thrown : E -> completion A.
Arguments Normal {A} _.
Arguments Thrown {A} _.

Definition M (A : Type) : Type := W -> completion A * W.

Definition ret {A} (a : A) : M A := fun w => (Normal a, w).

Definition bind {A B} (c : M A) (k : A -> M B) : M B :=
  fun w =>
    match c w with
    | (Normal a, w') => k a w'
    | (Thrown e, w') => (Thrown e, w')
    end.

Definition throw {A} (e : E) : M A := fun w => (Thrown e, w).

Definition get : M W := fun w => (Normal w, w).

Definition modify (f : W -> W) : M unit := fun w => (Normal tt, f w).

(** [try { body } catch (error) { handler(error) }] *)
Definition try_catch {A} (body : M A) (handler : E -> M A) : M A :=
  fun w =>
    match body w with
    | (Normal a, w') => (Normal a, w')
    | (Thrown e, w') => handler e w'
    end.

(** [try { body } finally { final }]: [final] runs on both completions
    and the completion of [body] is kept unless [final] throws. *)
Definition try_finally {A} (body : M A) (final : M unit) : M A :=
  fun w =>
    match body w with
    | (r, w') =>
        match final w' with
        | (Normal _, w'') => (r, w'')
        | (Thrown e, w'') => (Thrown e, w'')
        end
    end.

Definition try_catch_finally {A}
  (body : M A) (handler : E -> M A) (final : M unit) : M A :=
  try_finally (try_catch body handler) final.

Definition when (b : bool) (c : M unit) : M unit :=
  if b then c else ret tt.

(** The state a handler leaves behind. *)
Definition exec {A} (c : M A) (w : W) : W := snd (c w).

End Monad.

Arguments Normal {E A} _.
Arguments Thrown {E A} _.
Arguments M : clear implicits.

Module Notations.
  Declare Scope handler_scope.
  Delimit Scope handler_scope with handler.
  Notation "x <- c ;; k" := (bind c (fun x => k))
    (at level 61, c at next level, right associativity) : handler_scope.
  Notation "c ;; k" := (bind c (fun _ => k))
    (at level 61, right associativity) : handler_scope.
End Notations.

End Handler.

(* ===================================================================== *)
(** ** The validation schema of the form *)
(* ===================================================================== *)

Module Schema.

(** Values a field of the submitted object can hold. *)
Inductive value : Type :=
| VUndefined : value
| VNull : value
| VBool : bool -> value
| VNumber : nat -> value
| VString : string -> value
| VObject : fields -> value
with fields : Type :=
| no_fields : fields
| field : string -> value -> fields -> fields.

(** What a failed check reports: the field and the kind of failure, with
    the message where the schema gives one. *)
Inductive issue : Type :=
| invalid_type (path expected : string)
| too_small (path : string) (minimum : nat) (message : string)
| invalid_string (path : string) (message : string)
| invalid_enum_value (path : string) (options : list string).

Definition parsed (A : Type) : Type := (list issue + A)%type.

Definition issues_of {A} (r : parsed A) : list issue :=
  match r with inl l => l | inr _ => [] end.

(** The checks chained on [z.string()]. *)
Inductive string_check : Type :=
| min (n : nat) (message : string)
| regex_check (r : regex) (message : string).

Definition run_check (path : string) (s : string) (c : string_check) : list issue :=
  match c with
  | min n message =>
      if (String.length s <? n)%nat then [too_small path n message] else []
  | regex_check r message =>
      if test_anchored r s then [] else [invalid_string path message]
  end.

(** [z.string().check1(...).check2(...)]: a value that is not a string is
    refused at once; on a string every check runs and reports. *)
Definition z_string (checks : list string_check) (path : string) (v : value)
  : parsed string :=
  match v with
  | VString s =>
      match flat_map (run_check path s) checks with
      | [] => inr s
      | l => inl l
      end
  | _ => inl [invalid_type path "string"]
  end.

(** [z.any()] *)
Definition z_any (path : string) (v : value) : parsed value := inr v.

(** [z.enum([...])]: the value itself is kept. *)
Definition z_enum (options : list string) (path : string) (v : value)
  : parsed string :=
  match v with
  | VString s =>
      if existsb (String.eqb s) options then inr s
      else inl [invalid_enum_value path options]
  | _ =>
      inl [invalid_type path
             (String.concat " | " (map (fun o => "'" ++ o ++ "'") options))]
  end.

(** The object handed to the schema; a key that is absent reads as
    [VUndefined], keys outside the shape are dropped by [z.object]. *)
Record raw : Type := mkRaw {
  raw_title : value;
  raw_slug : value;
  raw_excerpt : value;
  raw_content : value;
  raw_coverImage : value;
  raw_status : value
}.

(** The object a successful parse returns. *)
Record data : Type := mkData {
  title : string;
  slug : string;
  excerpt : string;
  content : value;
  coverImage : string;
  status : string
}.

(** The body of [/^[a-z0-9]+(?:-[a-z0-9]+)*$/]. *)
Definition slug_regex : regex :=
  Seq (Plus (Class is_lower_alnum))
      (Star (Seq (Class is_hyphen) (Plus (Class is_lower_alnum)))).

Definition title_schema := z_string [min 5 "Title must be at least 5 characters"].
Definition slug_schema :=
  z_string [min 5 "Slug must be at least 5 characters";
            regex_check slug_regex
              "Slug must contain only lowercase letters, numbers, and hyphens"].
Definition excerpt_schema := z_string [min 10 "Excerpt must be at least 10 characters"].
Definition content_schema := z_any.
Definition coverImage_schema := z_string [min 1 "Cover image is required"].
Definition status_schema := z_enum ["draft"; "published"].

(** [blogSchema]: every field is parsed; the parse succeeds when none
    reports an issue. *)
Definition blogSchema (input : raw) : parsed data :=
  let t := title_schema "title" (raw_title input) in
  let s := slug_schema "slug" (raw_slug input) in
  let e := excerpt_schema "excerpt" (raw_excerpt input) in
  let c := content_schema "content" (raw_content input) in
  let i := coverImage_schema "coverImage" (raw_coverImage input) in
  let st := status_schema "status" (raw_status input) in
  match t, s, e, c, i, st with
  | inr t', inr s', inr e', inr c', inr i', inr st' =>
      inr (mkData t' s' e' c' i' st')
  | _, _, _, _, _, _ =>
      inl (issues_of t ++ issues_of s ++ issues_of e ++ issues_of c
           ++ issues_of i ++ issues_of st)%list
  end.

Definition succeeds {A} (r : parsed A) : bool :=
  match r with inr _ => true | inl _ => false end.

(** Whether the schema accepts the object. *)
Definition accepts (input : raw) : bool := succeeds (blogSchema input).

(** Whether the slug rule accepts a string. *)
Definition accepts_slug (s : string) : bool :=
  succeeds (slug_schema "slug" (VString s)).

End Schema.


(* ===================================================================== *)
(** ** What the pages share: requests' outcomes, notifications *)
(* ===================================================================== *)

Module Net.

(** [await response.json()] either yields the decoded body or throws. *)
Inductive body (A : Type) : Type :=
| Json : A -> body A
| NotJson (message : string) : body A.
Arguments Json {A} _.
Arguments NotJson {A} _.

Record response (A : Type) : Type := mkResponse {
  ok : bool;                       (* a status in the range 200-299 *)
  payload : body A
}.
Arguments mkResponse {A} _ _.
Arguments ok {A} _.
Arguments payload {A} _.

(** [await fetch(...)] either resolves with a response, whatever its
    status, or rejects when no response arrives. *)
Inductive outcome (A : Type) : Type :=
| Resolved : response A -> outcome A
| Rejected (message : string) : outcome A.
Arguments Resolved {A} _.
Arguments Rejected {A} _.

(** [response.json()] in a handler: the thrown value is an [Error], kept
    as its message. *)
Definition json {W A} (resp : response A) : Handler.M W string A :=
  match payload resp with
  | Json d => Handler.ret d
  | NotJson message => Handler.throw message
  end.

(** The request was answered with a status in the range 200-299. *)
Definition succeeded {A} (o : outcome A) : bool :=
  match o with
  | Resolved resp => ok resp
  | Rejected _ => false
  end.

End Net.

Module Ui.

(** The argument of [toast({ title, description, variant })]. *)
Record toast : Type := mkToast {
  toast_title : string;
  description : string;
  variant : option string
}.

(** A line of [console.error(label, error)]. *)
Record console_line : Type := mkLine {
  label : string;
  error_message : string
}.

End Ui.

(* ===================================================================== *)
(** ** The edit form *)
(* ===================================================================== *)

Module EditBlogPage.

Import Handler Handler.Notations Net Ui.
Local Open Scope handler_scope.

(** The values held by the form: the inputs bound to [title], [slug],
    [excerpt] and [coverImage] give strings, the editor gives [content],
    [status] is only written by the two action buttons. *)
Record form_values : Type := mkValues {
  title : string;
  slug : string;
  excerpt : string;
  content : Schema.value;
  coverImage : string;
  status : string
}.

Definition defaultValues : form_values :=
  mkValues "" "" "" (Schema.VObject Schema.no_fields) "" "draft".

(** A request made with [fetch]; [body] is the object given to
    [JSON.stringify]. *)
Record request : Type := mkRequest {
  url : string;
  method : string;
  headers : list (string * string);
  body : Schema.data
}.

(** The decoded body of the reply to the update: its [error] property,
    when it has one. *)
Record reply : Type := mkReply { error : option string }.

Record page : Type := mkPage {
  values : form_values;
  isSubmitting : bool;
  timers : nat;                    (* pending [setTimeout(generateSlug, 300)] *)
  toasts : list toast;
  console : list console_line;
  requests : list request;
  pushed : list string             (* [router.push] *)
}.

Definition initial : page := mkPage defaultValues false 0 [] [] [] [].

Definition with_values (f : form_values -> form_values) (p : page) : page :=
  mkPage (f (values p)) (isSubmitting p) (timers p) (toasts p) (console p)
         (requests p) (pushed p).

Definition set_title (v : string) (f : form_values) : form_values :=
  mkValues v (slug f) (excerpt f) (content f) (coverImage f) (status f).
Definition set_slug (v : string) (f : form_values) : form_values :=
  mkValues (title f) v (excerpt f) (content f) (coverImage f) (status f).
Definition set_excerpt (v : string) (f : form_values) : form_values :=
  mkValues (title f) (slug f) v (content f) (coverImage f) (status f).
Definition set_content (v : Schema.value) (f : form_values) : form_values :=
  mkValues (title f) (slug f) (excerpt f) v (coverImage f) (status f).
Definition set_coverImage (v : string) (f : form_values) : form_values :=
  mkValues (title f) (slug f) (excerpt f) (content f) v (status f).
Definition set_status (v : string) (f : form_values) : form_values :=
  mkValues (title f) (slug f) (excerpt f) (content f) (coverImage f) v.

Definition setIsSubmitting (b : bool) (p : page) : page :=
  mkPage (values p) b (timers p) (toasts p) (console p) (requests p) (pushed p).
Definition set_timers (n : nat) (p : page) : page :=
  mkPage (values p) (isSubmitting p) n (toasts p) (console p) (requests p) (pushed p).
Definition toast (t : Ui.toast) (p : page) : page :=
  mkPage (values p) (isSubmitting p) (timers p) (toasts p ++ [t]) (console p)
         (requests p) (pushed p).
Definition console_error (l : console_line) (p : page) : page :=
  mkPage (values p) (isSubmitting p) (timers p) (toasts p) (console p ++ [l])
         (requests p) (pushed p).
Definition record_request (r : request) (p : page) : page :=
  mkPage (values p) (isSubmitting p) (timers p) (toasts p) (console p)
         (requests p ++ [r]) (pushed p).
Definition router_push (path : string) (p : page) : page :=
  mkPage (values p) (isSubmitting p) (timers p) (toasts p) (console p)
         (requests p) (pushed p ++ [path]).

(** *** The slug and the title *)

(** [generateSlug]: nothing happens on an empty title; otherwise the slug
    is set from the title the form holds now. *)
Definition generateSlug (p : page) : page :=
  let title := title (values p) in
  if falsy title then p
  else
    let slug := slugify title in
    with_values (set_slug slug) p.

(** The [onChange] of the title input.  [field.onChange(e)] stores the new
    title in the form, so the [form.getValues('title')] that follows reads
    the title just typed; when the slug is empty or equal to the slug of
    that title, a call of [generateSlug] is scheduled.  Nothing cancels a
    call once scheduled. *)
Definition title_onChange (v : string) (p : page) : page :=
  let p := with_values (set_title v) p in
  if falsy (slug (values p))
     || String.eqb (slug (values p)) (slugify (title (values p)))
  then set_timers (S (timers p)) p
  else p.

(** The slug input is bound with [{...field}]: typing stores the text. *)
Definition slug_onChange (v : string) (p : page) : page :=
  with_values (set_slug v) p.

(** A scheduled [generateSlug] comes due. *)
Definition timer_fires (p : page) : page :=
  match timers p with
  | 0 => p
  | S n => generateSlug (set_timers n p)
  end.

(** The Generate button, [onClick={generateSlug}]. *)
Definition click_generate (p : page) : page := generateSlug p.

(** [handleCoverImageUpload] *)
Definition handleCoverImageUpload (url : string) (p : page) : page :=
  with_values (set_coverImage url) p.

(** What the user and the clock can do to the two fields. *)
Inductive event : Type :=
| TitleInput (v : string)
| SlugInput (v : string)
| TimerFires
| ClickGenerate.

Definition step (p : page) (e : event) : page :=
  match e with
  | TitleInput v => title_onChange v p
  | SlugInput v => slug_onChange v p
  | TimerFires => timer_fires p
  | ClickGenerate => click_generate p
  end.

Definition run (p : page) (es : list event) : page := fold_left step es p.

(** *** Submission *)

(** The object the resolver validates. *)
Definition to_raw (f : form_values) : Schema.raw :=
  Schema.mkRaw (Schema.VString (title f)) (Schema.VString (slug f))
               (Schema.VString (excerpt f)) (content f)
               (Schema.VString (coverImage f)) (Schema.VString (status f)).

Section Submit.

(** The backend, as seen through [fetch]. *)
Variable backend : request -> outcome reply.

Definition H := M page string.

Definition fetch (r : request) : H (response reply) :=
  modify (record_request r) ;;
  match backend r with
  | Resolved resp => ret resp
  | Rejected message => throw message
  end.

(** [e || fallback] on a property that may be missing. *)
Definition or_else (e : option string) (fallback : string) : string :=
  match e with
  | Some s => if falsy s then fallback else s
  | None => fallback
  end.

Definition onSubmit (data : Schema.data) : H unit :=
  try_catch_finally
    (modify (setIsSubmitting true) ;;
     response <- fetch (mkRequest "/api/blogs" "PUT"
                          [("Content-Type", "application/json")] data) ;;
     when (negb (ok response))
       (errorData <- json response ;;
        throw (or_else (error errorData) "Failed to update blog")) ;;
     result <- json response ;;
     modify (toast (mkToast "Success"
               ("Blog " ++
                (if String.eqb (Schema.status data) "published"
                 then "updated & published" else "updated as draft")
                ++ " successfully")
               None)) ;;
     modify (router_push "/dashboard/blogs"))
    (fun error =>
       modify (console_error (mkLine "Error updating blog:" error)) ;;
       modify (toast (mkToast "Error" error (Some "destructive"))))
    (modify (setIsSubmitting false)).

(** [form.handleSubmit(onSubmit)()]: the resolver runs the schema on the
    values of the form; [onSubmit] is called with the parsed object, and
    is not called when the schema reports an issue. *)
Definition handleSubmit (onSubmit : Schema.data -> H unit) : H unit :=
  p <- get ;;
  match Schema.blogSchema (to_raw (values p)) with
  | inr data => onSubmit data
  | inl _ => ret tt
  end.

(** The two action buttons. *)
Definition click_update_draft : H unit :=
  modify (with_values (set_status "draft")) ;;
  handleSubmit onSubmit.

Definition click_update_publish : H unit :=
  modify (with_values (set_status "published")) ;;
  handleSubmit onSubmit.

End Submit.

(** The request [onSubmit] makes for a parsed object. *)
Definition update_request (data : Schema.data) : request :=
  mkRequest "/api/blogs" "PUT" [("Content-Type", "application/json")] data.

(** A parsed object with another status. *)
Definition with_status (st : string) (d : Schema.data) : Schema.data :=
  Schema.mkData (Schema.title d) (Schema.slug d) (Schema.excerpt d)
                (Schema.content d) (Schema.coverImage d) st.

(** The objects the resolver lets through, for the values of a form: one,
    or none. *)
Definition validated (f : form_values) : list Schema.data :=
  match Schema.blogSchema (to_raw f) with
  | inr data => [data]
  | inl _ => []
  end.

(** Title edits and the timers they start, nothing else. *)
Definition title_or_timer (e : event) : bool :=
  match e with
  | TitleInput _ | TimerFires => true
  | SlugInput _ | ClickGenerate => false
  end.

(** "Once the user types a slug distinct from the value derived from the
    title, subsequent title edits no longer overwrite the slug": whatever
    the page, with no regeneration pending, after the user has typed a
    slug that is not empty and not the one derived from the title, title
    edits and the regenerations they schedule leave that slug in place. *)
Definition typed_slug_is_kept : Prop :=
  forall (p : page) (typed : string) (later : list event),
    timers p = 0 ->
    typed <> "" ->
    typed <> slugify (title (values p)) ->
    forallb title_or_timer later = true ->
    slug (values (run (slug_onChange typed p) later)) = typed.

End EditBlogPage.

(* ===================================================================== *)
(** ** The listing page *)
(* ===================================================================== *)

Module BlogsPage.

Import Handler Handler.Notations Net Ui.
Local Open Scope handler_scope.

Inductive blog_status : Type := published | draft.

Record Author : Type := mkAuthor {
  author_id : string;
  name : string;
  email : string
}.

Record Blog : Type := mkBlog {
  _id : string;
  title : string;
  slug : string;
  status : blog_status;
  author : Author;
  createdAt : string;
  updatedAt : string
}.

(** The decoded body of the reply to the listing request. *)
Record listing : Type := mkListing { blogs_field : list Blog }.

Inductive request : Type :=
| GET (path : string) (params : list (string * string))
| DELETE (path : string).

Record page : Type := mkPage {
  blogs : list Blog;
  loading : bool;
  searchTerm : string;
  filterStatus : option string;
  deleteDialogOpen : bool;
  blogToDelete : option string;
  toasts : list toast;
  console : list console_line;
  requests : list request
}.

(** The state of the component when it mounts. *)
Definition initial : page := mkPage [] true "" None false None [] [] [].

Definition setBlogs (f : list Blog -> list Blog) (p : page) : page :=
  mkPage (f (blogs p)) (loading p) (searchTerm p) (filterStatus p)
         (deleteDialogOpen p) (blogToDelete p) (toasts p) (console p) (requests p).
Definition setLoading (b : bool) (p : page) : page :=
  mkPage (blogs p) b (searchTerm p) (filterStatus p)
         (deleteDialogOpen p) (blogToDelete p) (toasts p) (console p) (requests p).
Definition setSearchTerm (s : string) (p : page) : page :=
  mkPage (blogs p) (loading p) s (filterStatus p)
         (deleteDialogOpen p) (blogToDelete p) (toasts p) (console p) (requests p).
Definition setFilterStatus (s : option string) (p : page) : page :=
  mkPage (blogs p) (loading p) (searchTerm p) s
         (deleteDialogOpen p) (blogToDelete p) (toasts p) (console p) (requests p).
Definition setDeleteDialogOpen (b : bool) (p : page) : page :=
  mkPage (blogs p) (loading p) (searchTerm p) (filterStatus p)
         b (blogToDelete p) (toasts p) (console p) (requests p).
Definition setBlogToDelete (i : option string) (p : page) : page :=
  mkPage (blogs p) (loading p) (searchTerm p) (filterStatus p)
         (deleteDialogOpen p) i (toasts p) (console p) (requests p).
Definition toast (t : Ui.toast) (p : page) : page :=
  mkPage (blogs p) (loading p) (searchTerm p) (filterStatus p)
         (deleteDialogOpen p) (blogToDelete p) (toasts p ++ [t]) (console p)
         (requests p).
Definition console_error (l : console_line) (p : page) : page :=
  mkPage (blogs p) (loading p) (searchTerm p) (filterStatus p)
         (deleteDialogOpen p) (blogToDelete p) (toasts p) (console p ++ [l])
         (requests p).
Definition record_request (r : request) (p : page) : page :=
  mkPage (blogs p) (loading p) (searchTerm p) (filterStatus p)
         (deleteDialogOpen p) (blogToDelete p) (toasts p) (console p)
         (requests p ++ [r]).

Definition H := M page string.

(** [!v] for a value of type [string | null]. *)
Definition unset (v : option string) : bool :=
  match v with
  | None => true
  | Some s => falsy s
  end.

(** [if (v) params.append(key, v)] *)
Definition append_if_set (key : string) (v : option string)
  (params : list (string * string)) : list (string * string) :=
  match v with
  | Some s => if falsy s then params else params ++ [(key, s)]
  | None => params
  end.

Section Backend.

(** The backend, as seen through [fetch]: the listing and the deletion. *)
Variable list_backend : request -> outcome listing.
Variable delete_backend : request -> outcome unit.

Definition fetch {A} (backend : request -> outcome A) (r : request)
  : H (response A) :=
  modify (record_request r) ;;
  match backend r with
  | Resolved resp => ret resp
  | Rejected message => throw message
  end.

Definition fetchBlogs : H unit :=
  try_catch_finally
    (modify (setLoading true) ;;
     p <- get ;;
     let params := [] in
     let params := append_if_set "search" (Some (searchTerm p)) params in
     let params := append_if_set "status" (filterStatus p) params in
     response <- fetch list_backend (GET "/api/blogs" params) ;;
     when (negb (ok response)) (throw "Failed to fetch blogs") ;;
     data <- json response ;;
     modify (setBlogs (fun _ => blogs_field data)))
    (fun error =>
       modify (console_error (mkLine "Error fetching blogs:" error)) ;;
       modify (toast (mkToast "Error" "Failed to load blogs. Please try again."
                        (Some "destructive"))))
    (modify (setLoading false)).

(** [useEffect(() => { fetchBlogs(); }, [filterStatus])]: the effect runs
    after the first render, and after a render in which [filterStatus]
    differs from its value at the previous render ([previous]). *)
Definition same_filter (a b : option string) : bool :=
  match a, b with
  | None, None => true
  | Some x, Some y => String.eqb x y
  | _, _ => false
  end.

Definition effect_runs (previous : option (option string)) (p : page) : bool :=
  match previous with
  | None => true
  | Some old => negb (same_filter old (filterStatus p))
  end.

Definition after_render (previous : option (option string)) : H unit :=
  p <- get ;;
  when (effect_runs previous p) fetchBlogs.

Definition handleSearch : H unit := fetchBlogs.

Definition clearFilters : H unit :=
  modify (setSearchTerm "") ;;
  modify (setFilterStatus None).

Definition confirmDelete (id : string) : H unit :=
  modify (setBlogToDelete (Some id)) ;;
  modify (setDeleteDialogOpen true).

Definition handleDelete : H unit :=
  p <- get ;;
  let blogToDelete := blogToDelete p in
  match blogToDelete with
  | None => ret tt
  | Some id =>
    if falsy id then ret tt
    else
      try_catch_finally
        (response <- fetch delete_backend (DELETE ("/api/blogs/" ++ id)) ;;
         when (negb (ok response)) (throw "Failed to delete blog") ;;
         modify (setBlogs (filter (fun blog => negb (String.eqb (_id blog) id)))) ;;
         modify (toast (mkToast "Success" "Blog deleted successfully" None)))
        (fun error =>
           modify (console_error (mkLine "Error deleting blog:" error)) ;;
           modify (toast (mkToast "Error" "Failed to delete blog. Please try again."
                            (Some "destructive"))))
        (modify (setDeleteDialogOpen false) ;;
         modify (setBlogToDelete None))
  end.

(** A click on a control of the page followed by the render it causes. *)
Definition dispatch (handler : H unit) : H unit :=
  p <- get ;;
  handler ;;
  after_render (Some (filterStatus p)).

End Backend.

End BlogsPage.

(* ===================================================================== *)
(** ** The editor adapter *)
(* ===================================================================== *)

Module TinyEditor.

(** The image handed over by the editor; [blob] is its binary content. *)
Record blobInfo : Type := mkBlobInfo {
  filename : string;
  blob : list ascii
}.

(** How a [FileReader] ends reading: [onload] with [reader.result], or
    [onerror]. *)
Inductive reading : Type :=
| load (result : string)
| error.

(** How the promise returned to the editor settles. *)
Inductive promise : Type :=
| resolved (value : string)
| rejected (reason : string).

(** What a handler can ask of the browser. *)
Inductive action : Type :=
| readAsDataURL (b : list ascii)
| new_Image (src : string)
| fetch (url : string).

Definition is_fetch (a : action) : bool :=
  match a with fetch _ => true | _ => false end.

Definition is_read (a : action) : bool :=
  match a with readAsDataURL _ => true | _ => false end.

Section Handler.

(** The browser's [FileReader.readAsDataURL]. *)
Variable reader : list ascii -> reading.

(** [images_upload_handler(blobInfo, progress)]: the promise, and what
    was asked of the browser on the way. *)
Definition images_upload_handler (info : blobInfo) : promise * list action :=
  let b := blob info in
  match reader b with
  | load result => (resolved result, [readAsDataURL b; new_Image result])
  | error => (rejected "error while uploading", [readAsDataURL b])
  end.

End Handler.

End TinyEditor.

(* ===================================================================== *)
(** ** The slug as the specification words it *)
(* ===================================================================== *)

Module SlugSpec.

(** The maximal runs of a string: its consecutive blocks of characters of
    one kind (inside [[a-z0-9]] or outside), each as long as possible. *)
Fixpoint runs (s : string) : list (bool * string) :=
  match s with
  | EmptyString => []
  | String c rest =>
      let k := is_lower_alnum c in
      match runs rest with
      | (k', r) :: more =>
          if Bool.eqb k k' then (k, String c r) :: more
          else (k, String c "") :: (k', r) :: more
      | [] => [(k, String c "")]
      end
  end.

Definition join (l : list string) : string := fold_right append "" l.

(** A run outside [[a-z0-9]] becomes a single hyphen. *)
Definition hyphenate (run : bool * string) : string :=
  if fst run then snd run else "-".

Definition replace_runs (s : string) : string :=
  join (map hyphenate (runs s)).

Definition strip_leading_hyphen (s : string) : string :=
  match s with
  | String c rest => if is_hyphen c then rest else s
  | EmptyString => EmptyString
  end.

Fixpoint strip_trailing_hyphen (s : string) : string :=
  match s with
  | EmptyString => EmptyString
  | String c rest =>
      match rest with
      | EmptyString => if is_hyphen c then EmptyString else s
      | String _ _ => String c (strip_trailing_hyphen rest)
      end
  end.

(** Lower-case, replace the runs, strip a leading and a trailing hyphen. *)
Definition derived_slug (title : string) : string :=
  strip_trailing_hyphen
    (strip_leading_hyphen (replace_runs (toLowerCase title))).

(** Every character of [s] satisfies [p]. *)
Fixpoint all_chars (p : ascii -> bool) (s : string) : bool :=
  match s with
  | EmptyString => true
  | String c rest => p c && all_chars p rest
  end.

(** A run is not empty and its characters are of the run's kind. *)
Definition run_ok (run : bool * string) : Prop :=
  snd run <> ""
  /\ all_chars (fun c => Bool.eqb (is_lower_alnum c) (fst run)) (snd run) = true.

(** The kinds of neighbouring runs differ. *)
Fixpoint alternate (l : list (bool * string)) : Prop :=
  match l with
  | (k, _) :: (((k', _) :: _) as more) => k <> k' /\ alternate more
  | _ => True
  end.

(** A slug as the data model describes it: segments of characters of
    [[a-z0-9]], each non-empty, separated by single hyphens.  [inside]
    tells whether the character before was one of a segment. *)
Fixpoint segments (inside : bool) (s : string) : bool :=
  match s with
  | EmptyString => inside
  | String c rest =>
      if is_lower_alnum c then segments true rest
      else if is_hyphen c && inside then segments false rest
      else false
  end.

Definition well_formed_slug (s : string) : bool := segments false s.

End SlugSpec.

(* ===================================================================== *)
(** ** Scanners used in the proofs *)
(* ===================================================================== *)

Module Scan.

(** The first replacement of [slugify] as a scanner with one bit of
    state: [in_run] holds while the characters of a run outside
    [[a-z0-9]] are being passed over. *)
Fixpoint collapse (in_run : bool) (s : string) : string :=
  match s with
  | EmptyString => EmptyString
  | String c rest =>
      if is_lower_alnum c then String c (collapse false rest)
      else if in_run then collapse true rest
      else String hyphen (collapse true rest)
  end.

(** The second replacement of [slugify] as a scanner. *)
Fixpoint strip (at_start : bool) (s : string) : string :=
  match s with
  | EmptyString => EmptyString
  | String c rest =>
      if is_hyphen c && (at_start || falsy rest) then strip false rest
      else String c (strip false rest)
  end.

(** Only characters of [[a-z0-9]] and hyphens, no two hyphens in a row;
    [after_hyphen] tells whether the character before was a hyphen. *)
Fixpoint hyphenated (after_hyphen : bool) (s : string) : bool :=
  match s with
  | EmptyString => true
  | String c rest =>
      if is_lower_alnum c then hyphenated false rest
      else if is_hyphen c && negb after_hyphen then hyphenated true rest
      else false
  end.

(** The two parts of the slug pattern: a segment, and the segments that
    follow it, each behind a hyphen. *)
Definition alnum_seg : regex := Plus (Class is_lower_alnum).
Definition more_segs : regex := Star (Seq (Class is_hyphen) alnum_seg).

(** The runs of a string without a first run outside [[a-z0-9]]. *)
Definition after_first_gap (l : list (bool * string)) : list (bool * string) :=
  match l with
  | (false, _) :: more => more
  | _ => l
  end.

End Scan.

(* ===================================================================== *)
(** ** Sample pages *)
(* ===================================================================== *)

Module Samples.

(** The form with the title "Hello" and the slug derived from it. *)
Definition hello_form : EditBlogPage.page :=
  EditBlogPage.mkPage
    (EditBlogPage.mkValues "Hello" "hello" "" (Schema.VObject Schema.no_fields)
                           "" "draft")
    false 0 [] [] [] [].

(** A form filled in so that the schema accepts it. *)
Definition filled_form : EditBlogPage.page :=
  EditBlogPage.mkPage
    (EditBlogPage.mkValues "Hello World" "hello-world" "A first greeting."
                           (Schema.VString "<p>Hello</p>")
                           "https://example.org/cover.png" "draft")
    false 0 [] [] [] [].

(** The same form with a regeneration pending. *)
Definition hello_form_pending : EditBlogPage.page :=
  EditBlogPage.set_timers 1 hello_form.

Definition ada : BlogsPage.Author :=
  BlogsPage.mkAuthor "u1" "Ada" "ada@example.org".

Definition first_post : BlogsPage.Blog :=
  BlogsPage.mkBlog "b1" "First post" "first-post" BlogsPage.published ada
                   "2024-01-01" "2024-01-02".

Definition second_post : BlogsPage.Blog :=
  BlogsPage.mkBlog "b2" "Second post" "second-post" BlogsPage.draft ada
                   "2024-02-01" "2024-02-02".

(** The listing with two posts and the deletion of the first confirmed. *)
Definition listing_with_pending_delete : BlogsPage.page :=
  BlogsPage.mkPage [first_post; second_post] false "" None true (Some "b1")
                   [] [] [].

(** A backend that deletes what it is asked to. *)
Definition obliging_backend (r : BlogsPage.request) : Net.outcome unit :=
  Net.Resolved (Net.mkResponse true (Net.Json tt)).

End Samples.

(* ===================================================================== *)
(** ** The rest of the edit form: the image upload *)
(* ===================================================================== *)

Module UploadImage.

Import Handler Handler.Notations Net Ui.
Local Open Scope handler_scope.

(** The [File] chosen by the user. *)
Record file : Type := mkFile {
  file_name : string;
  file_bytes : list ascii
}.

(** A request made with [fetch] whose body is a [FormData]: the entries
    appended to it, in order. *)
Record upload_request : Type := mkUpload {
  upload_url : string;
  upload_method : string;
  formData : list (string * file)
}.

(** The decoded body of the reply: its [secure_url] property, when it has
    one. *)
Record upload_reply : Type := mkUploadReply { secure_url : option string }.

(** [handleUploadImage] lives in the edit form: it sees the page of the
    form and makes requests of its own kind. *)
Definition world : Type := (EditBlogPage.page * list upload_request)%type.

Definition on_page (f : EditBlogPage.page -> EditBlogPage.page) (w : world)
  : world := (f (fst w), snd w).

Definition record_upload (r : upload_request) (w : world) : world :=
  (fst w, (snd w ++ [r])%list).

Definition H := M world string.

Section Backend.

(** The upload endpoint, as seen through [fetch]. *)
Variable backend : upload_request -> outcome upload_reply.

Definition fetch (r : upload_request) : H (response upload_reply) :=
  modify (record_upload r) ;;
  match backend r with
  | Resolved resp => ret resp
  | Rejected message => throw message
  end.

(** [handleUploadImage(file)]: the value of [data.secure_url], or the
    error thrown again after it has been logged and notified. *)
Definition handleUploadImage (f : file) : H (option string) :=
  try_catch
    (let formData := [("file", f)] in
     response <- fetch (mkUpload "/api/upload" "POST" formData) ;;
     when (negb (ok response)) (throw "Failed to upload image") ;;
     data <- json response ;;
     ret (secure_url data))
    (fun error =>
       modify (on_page (EditBlogPage.console_error
                          (mkLine "Error uploading image:" error))) ;;
       modify (on_page (EditBlogPage.toast
                          (mkToast "Error"
                             "Failed to upload image. Please try again."
                             (Some "destructive")))) ;;
       throw error).

End Backend.

End UploadImage.

(* ===================================================================== *)
(** ** The rest of the edit form: what the slug machinery leaves alone *)
(* ===================================================================== *)

Module EditBlogPageFrame.

Import EditBlogPage.


(** Everything on the page but the title, the slug and the timers. *)
Definition beside_title_and_slug (p : page) :=
  (excerpt (values p), content (values p), coverImage (values p),
   status (values p), isSubmitting p, toasts p, console p, requests p,
   pushed p).

(** The object a parsed object came from. *)
Definition to_input (d : Schema.data) : Schema.raw :=
  Schema.mkRaw (Schema.VString (Schema.title d)) (Schema.VString (Schema.slug d))
               (Schema.VString (Schema.excerpt d)) (Schema.content d)
               (Schema.VString (Schema.coverImage d))
               (Schema.VString (Schema.status d)).

(** The field an issue is about. *)
Definition issue_path (i : Schema.issue) : string :=
  match i with
  | Schema.invalid_type path _ => path
  | Schema.too_small path _ _ => path
  | Schema.invalid_string path _ => path
  | Schema.invalid_enum_value path _ => path
  end.

End EditBlogPageFrame.

(* ===================================================================== *)
(** ** The rest of the listing page: its controls and what it shows *)
(* ===================================================================== *)

Module BlogsView.

Import Handler Handler.Notations Net Ui BlogsPage.
Local Open Scope handler_scope.

(** The search box, [onChange={(e) => setSearchTerm(e.target.value)}]. *)
Definition search_onChange (v : string) : H unit :=
  modify (setSearchTerm v).

(** An item of the status menu, [onClick={() => setFilterStatus(s)}] with
    [s] one of [null], ['published'], ['draft']. *)
Definition select_status (s : option string) : H unit :=
  modify (setFilterStatus s).

(** The clear button, [disabled={!searchTerm && !filterStatus}]. *)
Definition clear_disabled (p : page) : bool :=
  falsy (searchTerm p) && unset (filterStatus p).



End BlogsView.

(* ===================================================================== *)
(** ** More sample pages *)
(* ===================================================================== *)

Module MoreSamples.

(** The object the filled form validates to. *)
Definition filled_data : Schema.data :=
  Schema.mkData "Hello World" "hello-world" "A first greeting."
                (Schema.VString "<p>Hello</p>")
                "https://example.org/cover.png" "draft".

(** A backend that accepts every update. *)
Definition accepting_backend (r : EditBlogPage.request)
  : Net.outcome EditBlogPage.reply :=
  Net.Resolved (Net.mkResponse true (Net.Json (EditBlogPage.mkReply None))).

(** A picture to upload. *)
Definition picture : UploadImage.file :=
  UploadImage.mkFile "cover.png" ["a"%char; "b"%char].

End MoreSamples.

(* ===================================================================== *)
(** ** The generated slug and the pattern of the schema *)
(* ===================================================================== *)

Module GeneratedSlug.

Import EditBlogPage.





End GeneratedSlug.

(* ===================================================================== *)
(** * Properties *)
(* ===================================================================== *)

Import SlugSpec Scan.

(** ** Strings *)

Lemma append_eq_nil (a b : string) : a ++ b = "" -> a = "" /\ b = "".
Proof. destruct a; simpl; [auto | discriminate]. Qed.

(** A split of [String c s] either starts after nothing or after [c]. *)
Lemma append_eq_cons (a b : string) (c : ascii) (s : string) :
  a ++ b = String c s ->
  (a = "" /\ b = String c s) \/ (exists a', a = String c a' /\ s = a' ++ b).
Proof.
  destruct a as [|x a]; simpl; intros E.
  - left; auto.
  - right. injection E as -> <-. eauto.
Qed.

(** ** Character classes *)

Ltac each_char c :=
  destruct c as [[] [] [] [] [] [] [] []]; vm_compute; try reflexivity;
  try discriminate; auto.

Lemma hyphen_not_alnum (c : ascii) :
  is_hyphen c = true -> is_lower_alnum c = false.
Proof. each_char c. Qed.

Lemma alnum_not_hyphen (c : ascii) :
  is_lower_alnum c = true -> is_hyphen c = false.
Proof. each_char c. Qed.

Lemma is_hyphen_eq (c : ascii) : is_hyphen c = true <-> c = hyphen.
Proof. unfold is_hyphen. apply Ascii.eqb_eq. Qed.

Lemma alnum_not_upper (c : ascii) :
  is_lower_alnum c = true -> toLowerCase_char c = c.
Proof. each_char c. Qed.

Lemma hyphen_lower (c : ascii) :
  is_hyphen c = true -> toLowerCase_char c = c.
Proof. each_char c. Qed.

(** ** The regular-expression test decides the language *)

Lemma matches_seq_inv (r1 r2 : regex) (s : string) :
  matches (Seq r1 r2) s ->
  exists s1 s2, s = s1 ++ s2 /\ matches r1 s1 /\ matches r2 s2.
Proof. inversion 1; subst; eauto. Qed.

Lemma matches_alt_inv (r1 r2 : regex) (s : string) :
  matches (Alt r1 r2) s -> matches r1 s \/ matches r2 s.
Proof. inversion 1; subst; auto. Qed.

Lemma matches_class_inv (p : ascii -> bool) (s : string) :
  matches (Class p) s -> exists c, s = String c "" /\ p c = true.
Proof. inversion 1; subst; eauto. Qed.

Lemma nullable_matches (r : regex) : nullable r = true <-> matches r "".
Proof.
  induction r as [| | p | r1 IH1 r2 IH2 | r1 IH1 r2 IH2 | r IH]; simpl.
  - split; [discriminate | inversion 1].
  - split; [constructor | reflexivity].
  - split; [discriminate | inversion 1].
  - rewrite andb_true_iff, IH1, IH2. split.
    + intros [H1 H2]. change "" with ("" ++ ""). now constructor.
    + intros M. apply matches_seq_inv in M as [s1 [s2 [E [H1 H2]]]].
      symmetry in E. apply append_eq_nil in E as [-> ->]. auto.
  - rewrite orb_true_iff, IH1, IH2. split.
    + intros [H|H]; [now apply MAltL | now apply MAltR].
    + apply matches_alt_inv.
  - split; [constructor | reflexivity].
Qed.

(** A non-empty match of [r*] begins with a non-empty match of [r]. *)
Lemma star_cons (r : regex) (t : string) :
  matches (Star r) t ->
  forall c s, t = String c s ->
  exists s1 s2, s = s1 ++ s2 /\ matches r (String c s1) /\ matches (Star r) s2.
Proof.
  intros M. remember (Star r) as q eqn:Q. revert Q.
  induction M as [| | | | | r' | r' s1 s2 M1 _ M2 IH2];
    intros Q x t E; try discriminate Q; try discriminate E.
  injection Q as ->.
  apply append_eq_cons in E as [[-> ->] | [a' [-> ->]]].
  - now apply IH2.
  - exists a', s2; auto.
Qed.

Lemma deriv_matches (r : regex) :
  forall c s, matches (deriv c r) s <-> matches r (String c s).
Proof.
  induction r as [| | p | r1 IH1 r2 IH2 | r1 IH1 r2 IH2 | r IH];
    intros c s; simpl.
  - split; inversion 1.
  - split; inversion 1.
  - destruct (p c) eqn:P; split.
    + inversion 1; subst. now constructor.
    + inversion 1; subst. constructor.
    + inversion 1.
    + inversion 1; subst. congruence.
  - assert (L : matches (Seq (deriv c r1) r2) s ->
                matches (Seq r1 r2) (String c s)).
    { intros M. apply matches_seq_inv in M as [s1 [s2 [-> [H1 H2]]]].
      apply IH1 in H1. change (String c (s1 ++ s2)) with (String c s1 ++ s2).
      now constructor. }
    assert (R : matches (Seq r1 r2) (String c s) ->
                matches (Seq (deriv c r1) r2) s
                \/ (matches r1 "" /\ matches (deriv c r2) s)).
    { intros M. apply matches_seq_inv in M as [s1 [s2 [E [H1 H2]]]].
      symmetry in E. apply append_eq_cons in E as [[-> ->] | [a' [-> ->]]].
      - right. split; [assumption | now apply IH2].
      - left. constructor; [now apply IH1 | assumption]. }
    destruct (nullable r1) eqn:N; split.
    + intros M. apply matches_alt_inv in M as [M | M]; [now apply L |].
      change (String c s) with ("" ++ String c s).
      constructor; [now apply nullable_matches | now apply IH2].
    + intros M. destruct (R M) as [M' | [_ M']];
        [now apply MAltL | now apply MAltR].
    + apply L.
    + intros M. destruct (R M) as [M' | [M' _]]; [assumption |].
      apply nullable_matches in M'. congruence.
  - split; intros M; apply matches_alt_inv in M as [M | M];
      solve [apply MAltL; now apply IH1 | apply MAltR; now apply IH2].
  - split.
    + intros M. apply matches_seq_inv in M as [s1 [s2 [-> [H1 H2]]]].
      apply IH in H1. change (String c (s1 ++ s2)) with (String c s1 ++ s2).
      now constructor.
    + intros M.
      destruct (star_cons r _ M c s eq_refl) as [s1 [s2 [-> [M1 M2]]]].
      constructor; [now apply IH | assumption].
Qed.

Lemma test_anchored_matches (s : string) :
  forall r, test_anchored r s = true <-> matches r s.
Proof.
  induction s as [|c s IH]; intros r; simpl.
  - apply nullable_matches.
  - rewrite IH. apply deriv_matches.
Qed.

(** ** The slug pattern describes hyphen-separated segments *)

Lemma star_class_all (p : ascii -> bool) (s : string) :
  matches (Star (Class p)) s <-> all_chars p s = true.
Proof.
  split.
  - intros M. remember (Star (Class p)) as q eqn:Q. revert Q.
    induction M as [| | | | | r' | r' s1 s2 M1 _ M2 IH2];
      intros Q; try discriminate Q; [reflexivity |].
    injection Q as ->.
    apply matches_class_inv in M1 as [c [-> P]].
    simpl. now rewrite P, IH2.
  - induction s as [|c s IH]; simpl; intros A.
    + constructor.
    + apply andb_true_iff in A as [P A].
      change (String c s) with (String c "" ++ s).
      constructor; [now constructor | now apply IH].
Qed.

Lemma alnum_seg_matches (s : string) :
  matches alnum_seg s <-> s <> "" /\ all_chars is_lower_alnum s = true.
Proof.
  unfold alnum_seg, Plus. split.
  - intros M. apply matches_seq_inv in M as [s1 [s2 [-> [M1 M2]]]].
    apply matches_class_inv in M1 as [c [-> P]].
    apply star_class_all in M2. simpl. rewrite P, M2.
    split; [discriminate | reflexivity].
  - intros [N A]. destruct s as [|c s]; [congruence |].
    simpl in A. apply andb_true_iff in A as [P A].
    change (String c s) with (String c "" ++ s).
    constructor; [now constructor | now apply star_class_all].
Qed.

(** Reading a segment leaves the scanner inside a segment. *)
Lemma segments_run (a t : string) :
  all_chars is_lower_alnum a = true ->
  segments true (a ++ t) = segments true t.
Proof.
  induction a as [|c a IH]; simpl; [reflexivity |].
  intros A. apply andb_true_iff in A as [P A]. rewrite P. now apply IH.
Qed.

Lemma segments_first_run (a t : string) :
  a <> "" -> all_chars is_lower_alnum a = true ->
  segments false (a ++ t) = segments true t.
Proof.
  destruct a as [|c a]; [congruence |]. simpl.
  intros _ A. apply andb_true_iff in A as [P A]. rewrite P.
  now apply segments_run.
Qed.

Lemma more_segs_segments (t : string) :
  matches more_segs t -> segments true t = true.
Proof.
  unfold more_segs. intros M.
  remember (Star (Seq (Class is_hyphen) alnum_seg)) as q eqn:Q. revert Q.
  induction M as [| | | | | r' | r' s1 s2 M1 _ M2 IH2];
    intros Q; try discriminate Q; [reflexivity |].
  injection Q as ->.
  apply matches_seq_inv in M1 as [h [a [-> [Mh Ma]]]].
  apply matches_class_inv in Mh as [c [-> Hc]].
  apply alnum_seg_matches in Ma as [N A].
  simpl. rewrite (hyphen_not_alnum c Hc), Hc. simpl.
  rewrite segments_first_run by assumption. now apply IH2.
Qed.

(** What the scanner has accepted, read back as segments. *)
Lemma segments_split (s : string) :
  (segments true s = true ->
   exists a t, s = a ++ t /\ all_chars is_lower_alnum a = true
               /\ matches more_segs t)
  /\ (segments false s = true ->
      exists a t, s = a ++ t /\ a <> "" /\ all_chars is_lower_alnum a = true
                  /\ matches more_segs t).
Proof.
  induction s as [|c s [IHt IHf]]; simpl.
  - split; [| discriminate].
    intros _. exists "", "". repeat split. constructor.
  - destruct (is_lower_alnum c) eqn:P.
    + split; intros S; destruct (IHt S) as [a [t [-> [A M]]]];
        exists (String c a), t; simpl; rewrite P, A;
        repeat split; auto; discriminate.
    + destruct (is_hyphen c) eqn:Hc; simpl; split; try discriminate.
      intros S. destruct (IHf S) as [a [t [-> [N [A M]]]]].
      exists "", (String c a ++ t). repeat split.
      change (String c a ++ t) with ((String c "" ++ a) ++ t).
      constructor; [| assumption].
      constructor; [now constructor | now apply alnum_seg_matches].
Qed.

Lemma slug_regex_segments (s : string) :
  matches Schema.slug_regex s <-> well_formed_slug s = true.
Proof.
  unfold well_formed_slug. split.
  - intros M. apply matches_seq_inv in M as [a [t [-> [Ma Mt]]]].
    apply alnum_seg_matches in Ma as [N A].
    rewrite segments_first_run by assumption. now apply more_segs_segments.
  - intros S. destruct (proj2 (segments_split s) S) as [a [t [-> [N [A M]]]]].
    constructor; [now apply alnum_seg_matches | assumption].
Qed.

(** The test of the slug pattern, as a scanner. *)
Lemma test_slug_regex (s : string) :
  test_anchored Schema.slug_regex s = well_formed_slug s.
Proof.
  apply eq_true_iff_eq.
  rewrite test_anchored_matches. apply slug_regex_segments.
Qed.

(** ** The matcher of the first replacement and its pattern

    [match_non_alnum_run] finds the match of [[^a-z0-9]+] at a position:
    the characters it takes are in the language of the pattern, the match
    cannot be made longer, and it fails only where no match starts. *)

Lemma match_non_alnum_run_cons (b : bool) (c : ascii) (s : string) :
  match_non_alnum_run b (String c s)
  = if is_lower_alnum c then None
    else Some (S (run_length not_lower_alnum s)).
Proof.
  unfold match_non_alnum_run. cbn [run_length]. unfold not_lower_alnum at 1.
  destruct (is_lower_alnum c); reflexivity.
Qed.

Lemma run_length_star (p : ascii -> bool) (s : string) :
  matches (Star (Class p)) (substring 0 (run_length p s) s).
Proof.
  induction s as [|c s IH]; cbn [run_length]; [constructor |].
  destruct (p c) eqn:P; [| constructor].
  cbn [substring]. change (String c ?x) with (String c "" ++ x).
  constructor; [now constructor | exact IH].
Qed.

Lemma run_length_maximal (p : ascii -> bool) (s : string) (c : ascii) :
  get (run_length p s) s = Some c -> p c = false.
Proof.
  induction s as [|d s IH]; cbn [run_length]; [discriminate |].
  destruct (p d) eqn:P; cbn [get].
  - exact IH.
  - intros E. injection E as <-. exact P.
Qed.

Lemma match_non_alnum_run_sound (b : bool) (s : string) (n : nat) :
  match_non_alnum_run b s = Some n ->
  matches (Plus (Class not_lower_alnum)) (substring 0 n s)
  /\ (forall c, get n s = Some c -> not_lower_alnum c = false).
Proof.
  unfold match_non_alnum_run.
  destruct s as [|c s]; cbn [run_length]; [discriminate |].
  destruct (not_lower_alnum c) eqn:P; [| discriminate].
  intros E. injection E as <-. split.
  - cbn [substring]. change (String c ?x) with (String c "" ++ x).
    constructor; [now constructor | apply run_length_star].
  - intros d G.
    apply (run_length_maximal not_lower_alnum (String c s)).
    cbn [run_length]. now rewrite P.
Qed.

Lemma match_non_alnum_run_none (b : bool) (s : string) :
  match_non_alnum_run b s = None
  <-> match s with
      | String c _ => is_lower_alnum c = true
      | EmptyString => True
      end.
Proof.
  destruct s as [|c s]; [split; auto |].
  rewrite match_non_alnum_run_cons.
  destruct (is_lower_alnum c); split; auto; discriminate.
Qed.

(** ** The two replacements of [slugify] as scanners *)

Lemma replace_runs_collapse (s : string) :
  forall b,
    replace_from match_non_alnum_run "-" 0 b s = collapse false s
    /\ replace_from match_non_alnum_run "-" (run_length not_lower_alnum s) b s
       = collapse true s.
Proof.
  induction s as [|c s IH]; intros b.
  - split; reflexivity.
  - assert (Z : replace_from match_non_alnum_run "-" 0 b (String c s)
                = collapse false (String c s)).
    { cbn [replace_from collapse]. rewrite match_non_alnum_run_cons.
      destruct (is_lower_alnum c).
      - now rewrite (proj1 (IH false)).
      - now rewrite (proj2 (IH false)). }
    split; [exact Z |].
    cbn [run_length]. unfold not_lower_alnum at 1.
    destruct (is_lower_alnum c) eqn:P; cbn [negb].
    + rewrite Z. cbn [collapse]. now rewrite P.
    + cbn [replace_from collapse]. rewrite P. apply IH.
Qed.

Lemma replace_edges_strip (s : string) :
  forall b, replace_from match_edge_hyphen "" 0 b s = strip b s.
Proof.
  induction s as [|c s IH]; intros b; [reflexivity |].
  cbn [replace_from strip]. unfold match_edge_hyphen.
  destruct (is_hyphen c), b, (falsy s); cbn [andb orb append];
    now rewrite IH.
Qed.

Lemma slugify_scan (title : string) :
  slugify title = strip true (collapse false (toLowerCase title)).
Proof.
  unfold slugify, replace_global.
  rewrite replace_edges_strip.
  now rewrite (proj1 (replace_runs_collapse _ true)).
Qed.

(** ** The runs of a string

    [runs] cuts a string into its maximal runs: the pieces make up the
    string, each is non-empty and of one kind, and neighbours differ in
    kind. *)

(** The runs, put together again, are the string. *)
Lemma runs_join (s : string) : join (map snd (runs s)) = s.
Proof.
  induction s as [|c s IH]; [reflexivity |].
  simpl. destruct (runs s) as [|[k' r] more]; simpl in *.
  - now rewrite <- IH.
  - destruct (Bool.eqb (is_lower_alnum c) k'); simpl; now rewrite <- IH.
Qed.

Lemma runs_ok (s : string) : Forall run_ok (runs s).
Proof.
  induction s as [|c s IH]; [constructor |].
  simpl. destruct (runs s) as [|[k' r] more].
  - constructor; [| constructor]. split; [discriminate |].
    simpl. now rewrite eqb_reflx.
  - inversion IH as [|? ? [N A] IH']; subst. simpl in *.
    destruct (Bool.eqb (is_lower_alnum c) k') eqn:K.
    + constructor; [| assumption]. split; [discriminate |].
      simpl. apply eqb_prop in K. rewrite <- K in A.
      now rewrite eqb_reflx, A.
    + constructor; [| assumption]. split; [discriminate |].
      simpl. now rewrite eqb_reflx.
Qed.

(** Runs are maximal: two neighbours are of different kinds. *)
Lemma runs_alternate (s : string) : alternate (runs s).
Proof.
  induction s as [|c s IH]; [exact I |].
  simpl. destruct (runs s) as [|[k' r] more]; [exact I |].
  destruct (Bool.eqb (is_lower_alnum c) k') eqn:K.
  - apply eqb_prop in K. rewrite K. destruct more as [|[k'' r'] more]; exact IH.
  - split; [| exact IH]. apply eqb_false_iff in K. exact K.
Qed.

Lemma replace_runs_scan (s : string) :
  join (map hyphenate (runs s)) = collapse false s
  /\ join (map hyphenate (after_first_gap (runs s))) = collapse true s.
Proof.
  induction s as [|c s [IH1 IH2]]; [split; reflexivity |].
  simpl. destruct (runs s) as [|[k' r] more].
  - simpl in *. rewrite <- IH1, <- IH2.
    destruct (is_lower_alnum c); split; reflexivity.
  - destruct (is_lower_alnum c), k'; simpl in *;
      rewrite <- ?IH1, <- ?IH2; split; reflexivity.
Qed.

Lemma strip_trailing_scan (s : string) : strip_trailing_hyphen s = strip false s.
Proof.
  induction s as [|c s IH]; [reflexivity |].
  simpl. rewrite <- IH. destruct s; simpl.
  - destruct (is_hyphen c); reflexivity.
  - now rewrite andb_false_r.
Qed.

Lemma strip_edges_scan (s : string) :
  strip_trailing_hyphen (strip_leading_hyphen s) = strip true s.
Proof.
  destruct s as [|c s]; [reflexivity |].
  unfold strip_leading_hyphen. simpl strip.
  destruct (is_hyphen c) eqn:Hc; simpl andb.
  - apply strip_trailing_scan.
  - rewrite strip_trailing_scan. simpl. now rewrite Hc.
Qed.

(** The derivation in the code is the derivation in words. *)
Lemma slugify_derived (title : string) : slugify title = derived_slug title.
Proof.
  unfold derived_slug, replace_runs.
  rewrite strip_edges_scan, (proj1 (replace_runs_scan _)).
  apply slugify_scan.
Qed.

(** ** The shape of a derived slug *)

Lemma hyphen_is_hyphen : is_hyphen hyphen = true.
Proof. reflexivity. Qed.

Lemma hyphen_is_not_alnum : is_lower_alnum hyphen = false.
Proof. reflexivity. Qed.

(** After the first replacement no two hyphens are neighbours. *)
Lemma collapse_hyphenated (s : string) :
  hyphenated false (collapse false s) = true
  /\ hyphenated true (collapse true s) = true.
Proof.
  induction s as [|c s [IH1 IH2]]; [split; reflexivity |].
  cbn [collapse]. destruct (is_lower_alnum c) eqn:P.
  - cbn [hyphenated]. rewrite P. auto.
  - split; [| exact IH2].
    cbn [hyphenated]. rewrite hyphen_is_not_alnum, hyphen_is_hyphen. exact IH2.
Qed.

(** Stripping the last hyphen of such a string leaves whole segments. *)
Lemma strip_segments (r : string) :
  (hyphenated false r = true -> segments true (strip false r) = true)
  /\ (hyphenated true r = true -> r <> "" ->
      segments false (strip false r) = true).
Proof.
  induction r as [|c r [IHa IHb]].
  - split; [reflexivity | congruence].
  - cbn [hyphenated strip orb]. destruct (is_lower_alnum c) eqn:P.
    + rewrite (alnum_not_hyphen c P). cbn [andb segments]. rewrite P. split; auto.
    + destruct (is_hyphen c) eqn:Hc; cbn [andb negb];
        [| split; discriminate].
      split; [| discriminate].
      intros Hr. destruct r as [|d r]; [reflexivity |].
      cbn [falsy segments]. rewrite P, Hc. cbn [andb].
      apply IHb; [assumption | discriminate].
Qed.

Lemma strip_collapse_shape (s : string) :
  strip true (collapse false s) = ""
  \/ well_formed_slug (strip true (collapse false s)) = true.
Proof.
  unfold well_formed_slug.
  destruct (collapse_hyphenated s) as [Hy _].
  destruct (collapse false s) as [|c r]; [now left |].
  cbn [hyphenated] in Hy. cbn [strip orb].
  destruct (is_lower_alnum c) eqn:P.
  - rewrite (alnum_not_hyphen c P). cbn [andb segments]. rewrite P.
    right. now apply strip_segments.
  - destruct (is_hyphen c) eqn:Hc; cbn [andb negb] in Hy |- *;
      [| discriminate].
    destruct r as [|d r]; [now left |].
    right. apply strip_segments; [assumption | discriminate].
Qed.

Lemma slugify_shape (title : string) :
  slugify title = "" \/ well_formed_slug (slugify title) = true.
Proof. rewrite slugify_scan. apply strip_collapse_shape. Qed.

(** ** A well-formed slug is its own slug *)

Lemma segments_lower (s : string) :
  forall b, segments b s = true -> toLowerCase s = s.
Proof.
  induction s as [|c s IH]; intros b; [reflexivity |].
  cbn [segments toLowerCase]. destruct (is_lower_alnum c) eqn:P.
  - intros S. now rewrite (alnum_not_upper c P), (IH _ S).
  - destruct (is_hyphen c) eqn:Hc; cbn [andb]; [| discriminate].
    destruct b; [| discriminate].
    intros S. now rewrite (hyphen_lower c Hc), (IH _ S).
Qed.

Lemma segments_collapse (s : string) :
  (segments true s = true -> collapse false s = s)
  /\ (segments false s = true ->
      collapse false s = s /\ collapse true s = s).
Proof.
  induction s as [|c s [IHt IHf]].
  - split; [reflexivity | discriminate].
  - cbn [segments collapse]. destruct (is_lower_alnum c) eqn:P.
    + split; intros S; rewrite (IHt S); auto.
    + destruct (is_hyphen c) eqn:Hc; cbn [andb]; split; try discriminate.
      intros S. apply is_hyphen_eq in Hc. subst c.
      now rewrite (proj2 (IHf S)).
Qed.

Lemma segments_strip (s : string) :
  forall b, segments b s = true -> strip false s = s.
Proof.
  induction s as [|c s IH]; intros b; [reflexivity |].
  cbn [segments strip orb]. destruct (is_lower_alnum c) eqn:P.
  - rewrite (alnum_not_hyphen c P). cbn [andb]. intros S. now rewrite (IH _ S).
  - destruct (is_hyphen c) eqn:Hc; cbn [andb]; [| discriminate].
    destruct b; [| discriminate].
    intros S. destruct s as [|d s]; [discriminate |].
    cbn [falsy]. now rewrite (IH _ S).
Qed.

Lemma slugify_fixes_slugs (s : string) :
  well_formed_slug s = true -> slugify s = s.
Proof.
  unfold well_formed_slug. intros S.
  rewrite slugify_scan, (segments_lower s _ S).
  rewrite (proj1 (proj2 (segments_collapse s) S)).
  destruct s as [|c s]; [discriminate |].
  cbn [segments] in S. cbn [strip orb].
  destruct (is_lower_alnum c) eqn:P.
  - rewrite (alnum_not_hyphen c P). cbn [andb]. now rewrite (segments_strip s _ S).
  - destruct (is_hyphen c); discriminate.
Qed.

Lemma slugify_idempotent (title : string) :
  slugify (slugify title) = slugify title.
Proof.
  destruct (slugify_shape title) as [E | W].
  - rewrite E. reflexivity.
  - now apply slugify_fixes_slugs.
Qed.

(* ===================================================================== *)
(** * The slug derivation *)
(* ===================================================================== *)

Section SlugDerivation.

Import EditBlogPage.

(** What [generateSlug] leaves in the slug field. *)
Lemma generateSlug_slug (p : page) :
  slug (values (generateSlug p))
  = if falsy (title (values p)) then slug (values p)
    else slugify (title (values p)).
Proof.
  unfold generateSlug. destruct (falsy (title (values p))); reflexivity.
Qed.

Lemma generateSlug_title (p : page) :
  title (values (generateSlug p)) = title (values p).
Proof.
  unfold generateSlug. destruct (falsy (title (values p))); reflexivity.
Qed.

(** C1. For every title, the slug computed by the code (lower-casing, then
    the two global replacements) is the title in lower case with every
    maximal run of characters outside a-z and 0-9 replaced by one hyphen
    and a leading and a trailing hyphen stripped.  The Generate button and
    the regeneration scheduled by a title edit both store that value for
    the title the form holds (and store nothing for an empty title), and
    the title edit compares the slug with that same value.  "Hello World"
    and "Hello World!!" both give "hello-world". *)
Theorem slug_derivation :
  (forall title, slugify title = derived_slug title)
  /\ (forall p,
        slug (values (click_generate p))
        = if falsy (title (values p)) then slug (values p)
          else derived_slug (title (values p)))
  /\ (forall p,
        slug (values (timer_fires p))
        = if (timers p =? 0)%nat || falsy (title (values p))
          then slug (values p)
          else derived_slug (title (values p)))
  /\ (forall v p,
        timers (title_onChange v p)
        = if falsy (slug (values p))
             || String.eqb (slug (values p)) (derived_slug v)
          then S (timers p) else timers p)
  /\ slugify "Hello World" = "hello-world"
  /\ slugify "Hello World!!" = "hello-world".
Proof.
  split; [exact slugify_derived |].
  split; [| split; [| split; [| split; reflexivity]]].
  - intros p. unfold click_generate.
    rewrite generateSlug_slug, slugify_derived. reflexivity.
  - intros p. unfold timer_fires. destruct (timers p); [reflexivity |].
    rewrite generateSlug_slug, slugify_derived. reflexivity.
  - intros v p. unfold title_onChange. cbn [with_values values set_title slug title].
    rewrite slugify_derived.
    destruct (falsy (slug (values p)) || String.eqb (slug (values p)) (derived_slug v));
      reflexivity.
Qed.

(** C7. Regenerating the slug while the title is unchanged changes
    nothing: [generateSlug] leaves the title alone, running it a second
    time gives the page the first run gave, and the slug of a derived slug
    is that slug. *)
Theorem slug_regeneration_idempotent :
  (forall p, title (values (generateSlug p)) = title (values p))
  /\ (forall p, generateSlug (generateSlug p) = generateSlug p)
  /\ (forall t, slugify (slugify t) = slugify t).
Proof.
  split; [exact generateSlug_title |].
  split; [| exact slugify_idempotent].
  intros p. unfold generateSlug at 2 3.
  destruct (falsy (title (values p))) eqn:F.
  - unfold generateSlug. now rewrite F.
  - unfold generateSlug. cbn [with_values values set_slug title].
    now rewrite F.
Qed.

End SlugDerivation.

(* ===================================================================== *)
(** * The validation schema *)
(* ===================================================================== *)

Section SchemaFacts.

Import Schema.

Lemma ltb_false_le (n m : nat) : (n <? m)%nat = false <-> m <= n.
Proof. apply Nat.ltb_ge. Qed.

(** A string rule with a minimum length only. *)
Lemma z_string_min (n : nat) (message path : string) (v : value) :
  succeeds (z_string [min n message] path v) = true
  <-> exists s, v = VString s /\ n <= String.length s.
Proof.
  destruct v as [| | b | k | s | o]; simpl;
    try (split; [discriminate | intros [s [E _]]; discriminate]).
  destruct (String.length s <? n)%nat eqn:L; simpl.
  - split; [discriminate |]. intros [s' [E Le]]. injection E as <-.
    apply Nat.ltb_lt in L. lia.
  - split; [| reflexivity]. intros _. exists s. split; [reflexivity |].
    now apply ltb_false_le.
Qed.

(** The rule of the slug. *)
Lemma slug_schema_accepts (path : string) (v : value) :
  succeeds (slug_schema path v) = true
  <-> exists s, v = VString s /\ 5 <= String.length s /\ matches slug_regex s.
Proof.
  destruct v as [| | b | k | s | o]; simpl;
    try (split; [discriminate | intros [s [E _]]; discriminate]).
  unfold slug_schema, z_string, flat_map, run_check.
  destruct (String.length s <? 5)%nat eqn:L;
    destruct (test_anchored slug_regex s) eqn:T; simpl.
  - split; [discriminate |]. intros [s' [E [Le _]]]. injection E as <-.
    apply Nat.ltb_lt in L. lia.
  - split; [discriminate |]. intros [s' [E [Le _]]]. injection E as <-.
    apply Nat.ltb_lt in L. lia.
  - split; [| reflexivity]. intros _. exists s.
    repeat split; [now apply ltb_false_le | now apply test_anchored_matches].
  - split; [discriminate |]. intros [s' [E [_ M]]]. injection E as <-.
    apply test_anchored_matches in M. congruence.
Qed.

Lemma status_schema_accepts (path : string) (v : value) :
  succeeds (status_schema path v) = true
  <-> v = VString "draft" \/ v = VString "published".
Proof.
  destruct v as [| | b | k | s | o]; simpl;
    try (split; [discriminate | intros [E | E]; discriminate]).
  rewrite orb_false_r.
  destruct (String.eqb_spec s "draft") as [-> | Nd]; simpl.
  - split; auto.
  - destruct (String.eqb_spec s "published") as [-> | Np]; simpl.
    + split; auto.
    + split; [discriminate |]. intros [E | E]; injection E; congruence.
Qed.

(** The object is accepted when each of its fields is. *)
Lemma blogSchema_fields (input : raw) :
  accepts input
  = succeeds (title_schema "title" (raw_title input))
    && succeeds (slug_schema "slug" (raw_slug input))
    && succeeds (excerpt_schema "excerpt" (raw_excerpt input))
    && succeeds (coverImage_schema "coverImage" (raw_coverImage input))
    && succeeds (status_schema "status" (raw_status input)).
Proof.
  unfold accepts, blogSchema, content_schema, z_any.
  destruct (title_schema "title" (raw_title input));
    destruct (slug_schema "slug" (raw_slug input));
    destruct (excerpt_schema "excerpt" (raw_excerpt input));
    destruct (coverImage_schema "coverImage" (raw_coverImage input));
    destruct (status_schema "status" (raw_status input)); reflexivity.
Qed.

(** C2. The schema accepts an object exactly when its title is a string
    of at least 5 characters, its slug a string of at least 5 characters
    in the language of the slug pattern, its excerpt a string of at least
    10 characters, its cover image a non-empty string and its status the
    string "draft" or "published"; nothing is asked of the content.  The
    slug rule accepts "my-post-123" and "abc12" and refuses "My Post",
    "-leading", "trailing-" and "ab". *)
Theorem blogSchema_accepts :
  (forall input : raw,
     accepts input = true
     <-> (exists t, raw_title input = VString t /\ 5 <= String.length t)
         /\ (exists s, raw_slug input = VString s /\ 5 <= String.length s
                       /\ matches slug_regex s)
         /\ (exists e, raw_excerpt input = VString e /\ 10 <= String.length e)
         /\ (exists i, raw_coverImage input = VString i /\ i <> "")
         /\ (raw_status input = VString "draft"
             \/ raw_status input = VString "published"))
  /\ accepts_slug "my-post-123" = true
  /\ accepts_slug "abc12" = true
  /\ accepts_slug "My Post" = false
  /\ accepts_slug "-leading" = false
  /\ accepts_slug "trailing-" = false
  /\ accepts_slug "ab" = false.
Proof.
  split; [| repeat split; reflexivity].
  intros input. rewrite blogSchema_fields, !andb_true_iff.
  unfold title_schema, excerpt_schema, coverImage_schema.
  rewrite !z_string_min, slug_schema_accepts, status_schema_accepts.
  assert (NE : forall v, (exists i, v = VString i /\ 1 <= String.length i)
                         <-> (exists i, v = VString i /\ i <> "")).
  { intros v. split; intros [i [E N]]; exists i; split; try assumption.
    - intros ->. simpl in N. lia.
    - destruct i; [congruence | simpl; lia]. }
  rewrite NE. tauto.
Qed.



End SchemaFacts.

(* ===================================================================== *)
(** * The listing page *)
(* ===================================================================== *)

(** Unfolds a handler down to the state it leaves. *)
Ltac run_handler :=
  unfold Handler.exec, Handler.try_catch_finally, Handler.try_finally,
         Handler.try_catch, Handler.when, Handler.bind, Handler.ret,
         Handler.throw, Handler.get, Handler.modify, Net.json;
  cbn.

Section Listing.

Import Handler Net Ui BlogsPage.

Lemma filter_keeps_others (id : string) (l : list Blog) (b : Blog) :
  In b (filter (fun blog => negb (String.eqb (_id blog) id)) l)
  <-> In b l /\ _id b <> id.
Proof.
  rewrite filter_In, negb_true_iff, String.eqb_neq. reflexivity.
Qed.

(** C3. With a delete confirmed for a target identifier (an empty
    identifier reads as none: nothing is requested and nothing changes):
    the request is made once; when it succeeds the collection keeps, in
    their order, exactly the posts whose identifier is not the target, the
    dialog is closed and a success notification is shown; when it fails (a
    status outside 200-299, or no response) the collection is as before
    and a failure notification is shown. *)
Theorem handleDelete_outcome
  (backend : request -> outcome unit) (p : page) (id : string) :
  blogToDelete p = Some id ->
  let p' := exec (handleDelete backend) p in
  if falsy id then p' = p
  else
    requests p' = (requests p ++ [DELETE ("/api/blogs/" ++ id)])%list
    /\ if succeeded (backend (DELETE ("/api/blogs/" ++ id)))
       then blogs p'
            = filter (fun blog => negb (String.eqb (_id blog) id)) (blogs p)
            /\ (forall b, In b (blogs p') <-> In b (blogs p) /\ _id b <> id)
            /\ deleteDialogOpen p' = false
            /\ toasts p'
               = (toasts p
                  ++ [mkToast "Success" "Blog deleted successfully" None])%list
       else blogs p' = blogs p
            /\ toasts p'
               = (toasts p
                  ++ [mkToast "Error" "Failed to delete blog. Please try again."
                        (Some "destructive")])%list.
Proof.
  intros Hid p'. subst p'.
  unfold handleDelete, fetch. run_handler. rewrite Hid.
  destruct (falsy id); [reflexivity |].
  destruct (backend _) as [[[] body] | message];
    cbn; (split; [reflexivity |]).
  - split; [reflexivity |].
    split; [intros b; apply filter_keeps_others |].
    split; reflexivity.
  - split; reflexivity.
  - split; reflexivity.
Qed.

(** C4. However the listing request ends, the loading flag is false when
    [fetchBlogs] is done.  When a response with a status in 200-299 and a
    decodable body arrives, the collection is the [blogs] field of that
    body and nothing is notified; in every other case (another status, no
    response, a body that cannot be decoded) the collection is as before
    and a failure notification is shown. *)
Theorem fetchBlogs_outcome
  (backend : request -> outcome listing) (p : page) :
  let req :=
    GET "/api/blogs"
        (append_if_set "status" (filterStatus p)
           (append_if_set "search" (Some (searchTerm p)) [])) in
  let p' := exec (fetchBlogs backend) p in
  loading p' = false
  /\ requests p' = (requests p ++ [req])%list
  /\ match backend req with
     | Resolved (mkResponse true (Json data)) =>
         blogs p' = blogs_field data /\ toasts p' = toasts p
     | _ =>
         blogs p' = blogs p
         /\ toasts p'
            = (toasts p ++ [mkToast "Error"
                              "Failed to load blogs. Please try again."
                              (Some "destructive")])%list
     end.
Proof.
  intros req p'. subst req p'.
  unfold fetchBlogs, fetch. run_handler.
  destruct (backend _) as [[[] [data | message]] | message]; cbn;
    repeat split; reflexivity.
Qed.

(** C9. [clearFilters] empties the search term, unsets the status filter,
    makes no request and leaves the collection and the loading flag as
    they are.  The render that follows reloads the collection, with no
    parameter, exactly when the status filter was set before. *)
Theorem clearFilters_resets
  (backend : request -> outcome listing) (p : page) :
  let p' := exec clearFilters p in
  searchTerm p' = ""
  /\ filterStatus p' = None
  /\ requests p' = requests p
  /\ blogs p' = blogs p
  /\ loading p' = loading p
  /\ requests (exec (dispatch backend clearFilters) p)
     = (requests p ++ match filterStatus p with
                      | Some _ => [GET "/api/blogs" []]
                      | None => []
                      end)%list.
Proof.
  intros p'. subst p'. unfold clearFilters.
  repeat (split; [reflexivity |]).
  unfold dispatch, after_render, effect_runs, fetchBlogs, fetch. run_handler.
  destruct (filterStatus p) as [old |]; cbn.
  - destruct (backend _) as [[[] [data | message]] | message]; reflexivity.
  - now rewrite app_nil_r.
Qed.

End Listing.

(** A confirmed deletion of the first of two posts, accepted by the
    backend, leaves the second. *)
Lemma handleDelete_outcome_witness :
  BlogsPage.blogs
    (Handler.exec (BlogsPage.handleDelete Samples.obliging_backend)
                  Samples.listing_with_pending_delete)
  = [Samples.second_post].
Proof.
  destruct (handleDelete_outcome Samples.obliging_backend
              Samples.listing_with_pending_delete "b1" eq_refl)
    as [_ [E _]].
  exact E.
Defined.

(* ===================================================================== *)
(** * The edit form *)
(* ===================================================================== *)

Section Form.

Import Handler Net Ui EditBlogPage.

(** C5, as stated, fails.  The user types the slug "my-post" under the
    title "Hello", then edits the title to "My Post" and on to "My Posts"
    before the regeneration scheduled by the first edit fires: the typed
    slug is replaced by "my-posts". *)
Lemma typed_slug_is_overwritten : ~ typed_slug_is_kept.
Proof.
  intros K.
  assert (N : "my-post" <> "") by discriminate.
  assert (D : "my-post" <> slugify (title (values Samples.hello_form)))
    by (vm_compute; discriminate).
  specialize (K Samples.hello_form "my-post"
                [TitleInput "My Post"; TitleInput "My Posts"; TimerFires]
                eq_refl N D eq_refl).
  vm_compute in K. discriminate K.
Qed.

(** Typing a title into the empty form: the edits made while the slug is
    still empty schedule regenerations; once one has fired, the next edit
    finds a slug that is not the slug of the new title and schedules
    nothing. *)
Example typing_a_title :
  let p := run initial [TitleInput "H"; TitleInput "He"; TimerFires;
                        TimerFires; TitleInput "Hel"] in
  slug (values p) = "he" /\ timers p = 0.
Proof. split; reflexivity. Qed.

(** A slug field emptied by the user is filled again by the next title
    edit. *)
Example emptied_slug_is_regenerated :
  slug (values (run Samples.hello_form
                    [SlugInput ""; TitleInput "Hello W"; TimerFires]))
  = "hello-w".
Proof. reflexivity. Qed.

Lemma title_onChange_effect (v : string) (p : page) :
  title (values (title_onChange v p)) = v
  /\ slug (values (title_onChange v p)) = slug (values p)
  /\ timers (title_onChange v p)
     = if falsy (slug (values p)) || String.eqb (slug (values p)) (slugify v)
       then S (timers p) else timers p.
Proof.
  unfold title_onChange. cbn [with_values values set_title slug title].
  destruct (falsy (slug (values p)) || String.eqb (slug (values p)) (slugify v));
    repeat split; reflexivity.
Qed.

(** With nothing pending, a timer that comes due does nothing. *)
Lemma idle_timers (n : nat) (p : page) :
  timers p = 0 -> run p (repeat TimerFires n) = p.
Proof.
  intros T. induction n as [|n IH]; [reflexivity |].
  cbn [repeat run fold_left step]. unfold timer_fires. rewrite T. exact IH.
Qed.

(** C5, as the code has it.  A title edit stores the new title, does not
    write the slug, and schedules a regeneration exactly when the slug it
    finds is empty or equal to the slug of the new title.  So, with no
    regeneration pending, an edit that finds a slug that is not empty and
    not the slug of the new title leaves the slug as it is, whatever
    timers come due afterwards.  A regeneration that fires and the
    Generate button both set the slug from the title the form holds then,
    whatever the slug was, when that title is not empty. *)
Theorem title_edit_regeneration :
  (forall v p,
     title (values (title_onChange v p)) = v
     /\ slug (values (title_onChange v p)) = slug (values p)
     /\ timers (title_onChange v p)
        = if falsy (slug (values p))
             || String.eqb (slug (values p)) (slugify v)
          then S (timers p) else timers p)
  /\ (forall v p n,
        timers p = 0 ->
        slug (values p) <> "" ->
        slug (values p) <> slugify v ->
        slug (values (run p (TitleInput v :: repeat TimerFires n)))
        = slug (values p))
  /\ (forall p n,
        timers p = S n ->
        title (values p) <> "" ->
        slug (values (timer_fires p)) = slugify (title (values p))
        /\ timers (timer_fires p) = n)
  /\ (forall p,
        title (values p) <> "" ->
        slug (values (click_generate p)) = slugify (title (values p))).
Proof.
  split; [exact title_onChange_effect |].
  split; [| split].
  - intros v p n T Ne Nd.
    destruct (title_onChange_effect v p) as [_ [Es Et]].
    assert (F : falsy (slug (values p)) = false).
    { destruct (slug (values p)); [congruence | reflexivity]. }
    apply String.eqb_neq in Nd. rewrite F, Nd, T in Et. cbn [orb] in Et.
    cbn [run fold_left step].
    change (fold_left step (repeat TimerFires n) (title_onChange v p))
      with (run (title_onChange v p) (repeat TimerFires n)).
    rewrite (idle_timers n _ Et). exact Es.
  - intros p n T Ne. unfold timer_fires. rewrite T.
    assert (F : falsy (title (values p)) = false).
    { destruct (title (values p)); [congruence | reflexivity]. }
    unfold generateSlug. cbn [set_timers values]. rewrite F. split; reflexivity.
  - intros p Ne. unfold click_generate, generateSlug.
    assert (F : falsy (title (values p)) = false).
    { destruct (title (values p)); [congruence | reflexivity]. }
    rewrite F. reflexivity.
Qed.

(** On the form with the title "Hello" and the slug "hello": the edit to
    "Hello there" schedules nothing and keeps the slug, a pending
    regeneration and the Generate button give "hello". *)
Lemma title_edit_regeneration_witness :
  slug (values (run Samples.hello_form
                    (TitleInput "Hello there" :: repeat TimerFires 2)))
  = "hello"
  /\ slug (values (timer_fires Samples.hello_form_pending)) = "hello"
  /\ slug (values (click_generate Samples.hello_form)) = "hello".
Proof.
  destruct title_edit_regeneration as [_ [Keep [Fire Gen]]].
  assert (N : "hello" <> "") by discriminate.
  assert (D : "hello" <> slugify "Hello there") by (vm_compute; discriminate).
  assert (T : "Hello" <> "") by discriminate.
  split; [exact (Keep "Hello there" Samples.hello_form 2 eq_refl N D) |].
  split; [exact (proj1 (Fire Samples.hello_form_pending 0 eq_refl T)) |].
  exact (Gen Samples.hello_form T).
Defined.

End Form.

(* ===================================================================== *)
(** * Submission *)
(* ===================================================================== *)

Section Submission.

Import Handler Net Ui EditBlogPage.

(** A string that passes its rule is returned as it is. *)
Lemma z_string_value (checks : list Schema.string_check) (path s s' : string) :
  Schema.z_string checks path (Schema.VString s) = inr s' -> s' = s.
Proof.
  unfold Schema.z_string.
  destruct (flat_map (Schema.run_check path s) checks); congruence.
Qed.

(** The parsed object holds the values of the form. *)
Lemma validated_values (f : form_values) :
  Forall (fun d =>
            d = Schema.mkData (title f) (slug f) (excerpt f) (content f)
                              (coverImage f) (status f))
         (validated f).
Proof.
  unfold validated, Schema.blogSchema, Schema.content_schema, Schema.z_any.
  cbn [to_raw Schema.raw_title Schema.raw_slug Schema.raw_excerpt
       Schema.raw_content Schema.raw_coverImage Schema.raw_status].
  destruct (Schema.title_schema "title" _) as [|t] eqn:Et; [constructor |].
  destruct (Schema.slug_schema "slug" _) as [|s] eqn:Es; [constructor |].
  destruct (Schema.excerpt_schema "excerpt" _) as [|e] eqn:Ee; [constructor |].
  destruct (Schema.coverImage_schema "coverImage" _) as [|i] eqn:Ei;
    [constructor |].
  destruct (Schema.status_schema "status" _) as [|st] eqn:Est; [constructor |].
  constructor; [| constructor].
  apply z_string_value in Et, Es, Ee, Ei. subst.
  unfold Schema.status_schema, Schema.z_enum in Est.
  destruct (existsb _ _); congruence.
Qed.

(** Both statuses pass the rule of the status, so the verdict on a form
    does not depend on which of them it holds. *)
Lemma validated_status (st st' : string) (f : form_values) :
  In st ["draft"; "published"] ->
  In st' ["draft"; "published"] ->
  validated (set_status st' f) = map (with_status st') (validated (set_status st f)).
Proof.
  intros I I'.
  assert (S : forall x, In x ["draft"; "published"] ->
                        Schema.status_schema "status" (Schema.VString x) = inr x).
  { intros x [<- | [<- | []]]; reflexivity. }
  unfold validated, Schema.blogSchema, Schema.content_schema, Schema.z_any.
  cbn [to_raw set_status title slug excerpt content coverImage status
       Schema.raw_title Schema.raw_slug Schema.raw_excerpt
       Schema.raw_content Schema.raw_coverImage Schema.raw_status].
  rewrite (S st I), (S st' I').
  destruct (Schema.title_schema "title" _) as [|t]; [reflexivity |].
  destruct (Schema.slug_schema "slug" _) as [|s]; [reflexivity |].
  destruct (Schema.excerpt_schema "excerpt" _) as [|e]; [reflexivity |].
  destruct (Schema.coverImage_schema "coverImage" _) as [|i]; reflexivity.
Qed.

(** [handleSubmit(onSubmit)] makes the update request for the parsed
    object, and no request when the schema refuses the form. *)
Lemma submit_requests (backend : request -> outcome reply) (p : page) :
  requests (exec (handleSubmit (onSubmit backend)) p)
  = (requests p ++ map update_request (validated (values p)))%list.
Proof.
  unfold handleSubmit, validated, exec, bind, get.
  destruct (Schema.blogSchema (to_raw (values p))) as [issues | data].
  - cbn. now rewrite app_nil_r.
  - unfold onSubmit, fetch, update_request. run_handler.
    destruct (backend _) as [[[] [d | m]] | m]; reflexivity.
Qed.

(** C6. The two buttons set the status and then run the same
    [handleSubmit(onSubmit)].  For any values of the other fields, each
    makes the update request for the object its form validates to, or no
    request when the schema refuses those values; the object sent by
    Update Draft holds the title, slug, excerpt, content and cover image
    of the form with the status "draft", and the object sent by Update &
    Publish is that object with the status "published" instead.  On a
    form the schema accepts each button sends one object. *)
Theorem draft_and_publish_payloads
  (backend : request -> outcome reply) (p : page) :
  let f := values p in
  let as_draft := validated (set_status "draft" f) in
  let as_published := validated (set_status "published" f) in
  exec (click_update_draft backend) p
  = exec (handleSubmit (onSubmit backend)) (with_values (set_status "draft") p)
  /\ exec (click_update_publish backend) p
     = exec (handleSubmit (onSubmit backend))
            (with_values (set_status "published") p)
  /\ requests (exec (click_update_draft backend) p)
     = (requests p ++ map update_request as_draft)%list
  /\ requests (exec (click_update_publish backend) p)
     = (requests p ++ map update_request as_published)%list
  /\ Forall (fun d =>
               d = Schema.mkData (title f) (slug f) (excerpt f) (content f)
                                 (coverImage f) "draft")
            as_draft
  /\ as_published = map (with_status "published") as_draft
  /\ as_draft = map (with_status "draft") as_published
  /\ length (validated (set_status "draft" (values Samples.filled_form))) = 1.
Proof.
  intros f as_draft as_published. subst f as_draft as_published.
  assert (Id : In "draft" ["draft"; "published"]) by (left; reflexivity).
  assert (Ip : In "published" ["draft"; "published"])
    by (right; left; reflexivity).
  split; [reflexivity |]. split; [reflexivity |].
  split.
  { change (exec (click_update_draft backend) p)
      with (exec (handleSubmit (onSubmit backend))
                 (with_values (set_status "draft") p)).
    now rewrite submit_requests. }
  split.
  { change (exec (click_update_publish backend) p)
      with (exec (handleSubmit (onSubmit backend))
                 (with_values (set_status "published") p)).
    now rewrite submit_requests. }
  split; [exact (validated_values (set_status "draft" (values p))) |].
  split; [exact (validated_status "draft" "published" _ Id Ip) |].
  split; [exact (validated_status "published" "draft" _ Ip Id) |].
  reflexivity.
Qed.

End Submission.

(* ===================================================================== *)
(** * The editor adapter *)
(* ===================================================================== *)

Section Editor.

Import TinyEditor.

(** C8. When the reader loads the blob, the handler resolves with the
    reader's result, the data URL; when the reader fails, it rejects with
    "error while uploading".  Either way the blob is read once and no
    request is made. *)
Theorem images_upload_handler_outcome
  (reader : list ascii -> reading) (info : blobInfo) :
  let settled := fst (images_upload_handler reader info) in
  let asked := snd (images_upload_handler reader info) in
  match reader (blob info) with
  | load result => settled = resolved result
  | error => settled = rejected "error while uploading"
  end
  /\ filter is_read asked = [readAsDataURL (blob info)]
  /\ filter is_fetch asked = [].
Proof.
  intros settled asked. subst settled asked.
  unfold images_upload_handler.
  destruct (reader (blob info)); repeat split; reflexivity.
Qed.

End Editor.

(* ===================================================================== *)
(** * More on the slug derivation *)
(* ===================================================================== *)

Section SlugMore.

Import Schema.

(** The replacements neither add nor remove a character of [[a-z0-9]]. *)
Lemma collapse_no_alnum (s : string) :
  forall b,
    all_chars not_lower_alnum (collapse b s) = all_chars not_lower_alnum s.
Proof.
  induction s as [|c s IH]; intros b; [reflexivity |].
  cbn [collapse all_chars]. unfold not_lower_alnum at 2.
  destruct (is_lower_alnum c) eqn:P.
  - cbn [all_chars]. unfold not_lower_alnum at 1. now rewrite P.
  - destruct b; cbn [negb andb all_chars]; [apply IH |].
    unfold not_lower_alnum at 1. rewrite hyphen_is_not_alnum. apply IH.
Qed.

Lemma strip_no_alnum (s : string) :
  forall b,
    all_chars not_lower_alnum (strip b s) = all_chars not_lower_alnum s.
Proof.
  induction s as [|c s IH]; intros b; [reflexivity |].
  cbn [strip all_chars].
  destruct (is_hyphen c) eqn:Hc; cbn [andb].
  - unfold not_lower_alnum at 2. rewrite (hyphen_not_alnum c Hc).
    destruct (b || falsy s); cbn [negb andb all_chars]; [apply IH |].
    unfold not_lower_alnum at 1. rewrite (hyphen_not_alnum c Hc). apply IH.
  - cbn [all_chars]. now rewrite IH.
Qed.

(** X3. The derived slug is empty exactly when the title, in lower case,
    has no character of a-z or 0-9: the empty title, and the titles made
    of punctuation, blanks and other such characters only. *)
Theorem slug_empty_iff (title : string) :
  slugify title = ""
  <-> all_chars not_lower_alnum (toLowerCase title) = true.
Proof.
  pose proof (strip_no_alnum (collapse false (toLowerCase title)) true) as E.
  rewrite collapse_no_alnum, <- slugify_scan in E.
  split.
  - intros Z. rewrite <- E, Z. reflexivity.
  - intros A. rewrite <- E in A.
    destruct (slugify_shape title) as [Z | W]; [exact Z |].
    unfold well_formed_slug in W.
    destruct (slugify title) as [|c r]; [reflexivity |].
    cbn [segments all_chars] in W, A. unfold not_lower_alnum at 1 in A.
    destruct (is_lower_alnum c); [discriminate A |].
    rewrite andb_false_r in W. discriminate W.
Qed.

Lemma toLowerCase_char_twice (c : ascii) :
  toLowerCase_char (toLowerCase_char c) = toLowerCase_char c.
Proof. each_char c. Qed.

Lemma toLowerCase_twice (s : string) :
  toLowerCase (toLowerCase s) = toLowerCase s.
Proof.
  induction s as [|c s IH]; [reflexivity |].
  cbn [toLowerCase]. now rewrite toLowerCase_char_twice, IH.
Qed.

(** X4. The slug does not see the case of the letters of the title: a
    title and its lower-case form derive the same slug, so two titles
    that differ in case only collide. *)
Theorem slug_ignores_case (a b : string) :
  toLowerCase a = toLowerCase b ->
  slugify a = slugify b /\ slugify (toLowerCase a) = slugify b.
Proof.
  intros E. unfold slugify. now rewrite toLowerCase_twice, E.
Qed.

Lemma slug_ignores_case_witness :
  slugify "Hello World" = slugify "hELLO wORLD"
  /\ slugify (toLowerCase "Hello World") = slugify "hELLO wORLD".
Proof.
  apply (slug_ignores_case "Hello World" "hELLO wORLD"). reflexivity.
Defined.

(** X5. A string that passes the test of the slug pattern is its own
    slug: deriving a slug from a title that is already one changes
    nothing. *)
Theorem pattern_slug_is_fixed (s : string) :
  test_anchored slug_regex s = true ->
  slugify s = s.
Proof.
  rewrite test_slug_regex. apply slugify_fixes_slugs.
Qed.

Lemma pattern_slug_is_fixed_witness : slugify "my-post-123" = "my-post-123".
Proof.
  apply (pattern_slug_is_fixed "my-post-123"). reflexivity.
Defined.

End SlugMore.

(* ===================================================================== *)
(** * More on the title and the slug of the form *)
(* ===================================================================== *)

Section SlugEvents.

Import EditBlogPage EditBlogPageFrame.

Lemma run_app (p : page) (es fs : list event) :
  run p (es ++ fs) = run (run p es) fs.
Proof. apply fold_left_app. Qed.

Lemma run_cons (p : page) (e : event) (es : list event) :
  run p (e :: es) = run (step p e) es.
Proof. reflexivity. Qed.

Lemma falsy_false (s : string) : s <> "" -> falsy s = false.
Proof. destruct s; [congruence | reflexivity]. Qed.




Lemma empty_title_timers (n : nat) :
  forall q,
    title (values q) = "" ->
    slug (values (run q (repeat TimerFires n))) = slug (values q).
Proof.
  induction n as [|n IH]; intros q T; [reflexivity |].
  cbn [repeat]. rewrite run_cons. cbn [step].
  assert (F : forall r, title (values r) = "" -> generateSlug r = r).
  { intros r R. unfold generateSlug. now rewrite R. }
  unfold timer_fires. destruct (timers q) as [|k]; [now apply IH |].
  rewrite F by exact T. rewrite IH by exact T. reflexivity.
Qed.

(** X7. Emptying the title never touches the slug: whatever the page and
    however many regenerations are pending or fire afterwards, the slug
    stays what it was. *)
Theorem emptied_title_keeps_slug (p : page) (n : nat) :
  slug (values (run p (TitleInput "" :: repeat TimerFires n)))
  = slug (values p).
Proof.
  rewrite run_cons. cbn [step].
  destruct (title_onChange_effect "" p) as [T [S _]].
  rewrite empty_title_timers by exact T. exact S.
Qed.

Lemma last_cons_default {A} (l : list A) :
  forall x d, last (x :: l) d = last l x.
Proof.
  induction l as [|y l IH]; intros x d; [reflexivity |].
  change (last (x :: y :: l) d) with (last (y :: l) d).
  now rewrite !IH.
Qed.

Lemma edits_on_empty_slug (titles : list string) (p : page) :
  slug (values p) = "" ->
  let p' := run p (map TitleInput titles) in
  timers p' = timers p + List.length titles
  /\ slug (values p') = ""
  /\ title (values p') = last titles (title (values p)).
Proof.
  revert p. induction titles as [|t ts IH]; intros p Hs p'; subst p'.
  - cbn. repeat split; [lia | exact Hs].
  - cbn [map]. rewrite run_cons. cbn [step].
    destruct (title_onChange_effect t p) as [T [Es Et]].
    rewrite Hs in Es, Et. cbn [falsy orb] in Et.
    destruct (IH (title_onChange t p) Es) as [H1 [H2 H3]].
    rewrite H1, H2, H3, Et, T, last_cons_default. cbn [List.length].
    repeat split; lia.
Qed.

(** X8. Nothing coalesces the regenerations: on a form whose slug is
    empty, every title edit adds one pending regeneration, and the slug
    stays empty until one fires. *)
Theorem title_edits_pile_up (titles : list string) (p : page) :
  slug (values p) = "" ->
  let p' := run p (map TitleInput titles) in
  timers p' = timers p + List.length titles
  /\ slug (values p') = ""
  /\ title (values p') = last titles (title (values p)).
Proof. apply edits_on_empty_slug. Qed.

Lemma title_edits_pile_up_witness :
  timers (run initial (map TitleInput ["H"; "He"; "Hel"])) = 3.
Proof.
  exact (proj1 (title_edits_pile_up ["H"; "He"; "Hel"] initial eq_refl)).
Defined.

(** With a title that is not empty, the timers that come due set the slug
    from it. *)
Lemma timers_fire (k : nat) :
  forall q,
    title (values q) <> "" ->
    S k <= timers q ->
    let q' := run q (repeat TimerFires (S k)) in
    slug (values q') = slugify (title (values q))
    /\ timers q' = timers q - S k
    /\ title (values q') = title (values q).
Proof.
  assert (One : forall q n,
            title (values q) <> "" -> timers q = S n ->
            slug (values (timer_fires q)) = slugify (title (values q))
            /\ timers (timer_fires q) = n
            /\ title (values (timer_fires q)) = title (values q)).
  { intros q n T E. unfold timer_fires. rewrite E.
    unfold generateSlug. cbn [set_timers values].
    rewrite (falsy_false _ T). repeat split; reflexivity. }
  induction k as [|k IH]; intros q T L q'; subst q'.
  - destruct (timers q) as [|n] eqn:E; [lia |].
    cbn [repeat]. rewrite run_cons. cbn [step run fold_left].
    destruct (One q n T E) as [H1 [H2 H3]].
    repeat split; [exact H1 | lia | exact H3].
  - destruct (timers q) as [|n] eqn:E; [lia |].
    change (repeat TimerFires (S (S k)))
      with (TimerFires :: repeat TimerFires (S k)).
    rewrite run_cons. cbn [step].
    destruct (One q n T E) as [H1 [H2 H3]].
    assert (T' : title (values (timer_fires q)) <> "") by now rewrite H3.
    assert (L' : S k <= timers (timer_fires q)) by lia.
    destruct (IH (timer_fires q) T' L') as [I1 [I2 I3]].
    rewrite I1, I2, I3, H2, H3. repeat split; lia.
Qed.

(** X9. Typing a title into a form whose slug is empty, with nothing
    pending, and letting every scheduled regeneration fire, ends with the
    slug of the last title typed, when that title is not empty, and with
    nothing pending. *)
Theorem typed_title_settles (titles : list string) (t : string) (p : page) :
  slug (values p) = "" ->
  timers p = 0 ->
  t <> "" ->
  let p' := run p (map TitleInput (titles ++ [t])
                   ++ repeat TimerFires (S (List.length titles))) in
  slug (values p') = slugify t /\ timers p' = 0 /\ title (values p') = t.
Proof.
  intros Hs T N p'. subst p'. rewrite run_app.
  destruct (edits_on_empty_slug (titles ++ [t]) p Hs) as [H1 [H2 H3]].
  rewrite last_last in H3. rewrite length_app, T in H1. cbn in H1.
  assert (N' : title (values (run p (map TitleInput (titles ++ [t])))) <> "")
    by now rewrite H3.
  assert (L : S (List.length titles)
              <= timers (run p (map TitleInput (titles ++ [t])))) by lia.
  destruct (timers_fire _ _ N' L) as [I1 [I2 I3]].
  rewrite I1, I2, I3, H3, H1. repeat split; lia.
Qed.

Lemma typed_title_settles_witness :
  slug (values (run initial (map TitleInput (["H"; "He"] ++ ["Hey you"])
                             ++ repeat TimerFires 3)))
  = "hey-you".
Proof.
  assert (N : "Hey you" <> "") by discriminate.
  exact (proj1 (typed_title_settles ["H"; "He"] "Hey you" initial
                  eq_refl eq_refl N)).
Defined.

(** X10. The title, the slug field, the timers and the Generate button
    touch nothing else: the other values of the form, the submission
    flag, the notifications, the log, the requests and the navigation
    are as before, whatever the events. *)
Theorem slug_events_frame (es : list event) (p : page) :
  beside_title_and_slug (run p es) = beside_title_and_slug p.
Proof.
  revert p. induction es as [|e es IH]; intros p; [reflexivity |].
  rewrite run_cons, IH.
  assert (G : forall q,
             beside_title_and_slug (generateSlug q) = beside_title_and_slug q).
  { intros q. unfold generateSlug.
    destruct (falsy (title (values q))); reflexivity. }
  destruct e as [v | v | |]; cbn [step].
  - unfold title_onChange. cbn [with_values values set_title slug title].
    destruct (falsy (slug (values p)) || _); reflexivity.
  - reflexivity.
  - unfold timer_fires. destruct (timers p); [reflexivity |]. now rewrite G.
  - apply G.
Qed.

End SlugEvents.

(* ===================================================================== *)
(** * More on the validation schema *)
(* ===================================================================== *)

Section SchemaMore.

Import Schema EditBlogPageFrame.

(** What passes a string rule is the string that was given. *)
Lemma z_string_inr (checks : list string_check) (path : string) (v : value)
  (s : string) :
  z_string checks path v = inr s -> v = VString s.
Proof.
  destruct v as [| | b | k | s' | o]; simpl; try discriminate.
  destruct (flat_map (run_check path s') checks); congruence.
Qed.

Lemma z_enum_inr (options : list string) (path : string) (v : value)
  (s : string) :
  z_enum options path v = inr s -> v = VString s.
Proof.
  destruct v as [| | b | k | s' | o]; simpl; try discriminate.
  destruct (existsb (String.eqb s') options); congruence.
Qed.

Lemma blogSchema_inr (input : raw) (d : data) :
  blogSchema input = inr d -> input = to_input d.
Proof.
  unfold blogSchema, content_schema, z_any, to_input.
  destruct (title_schema "title" _) as [|t] eqn:Et; [discriminate |].
  destruct (slug_schema "slug" _) as [|s] eqn:Es; [discriminate |].
  destruct (excerpt_schema "excerpt" _) as [|e] eqn:Ee; [discriminate |].
  destruct (coverImage_schema "coverImage" _) as [|i] eqn:Ei; [discriminate |].
  destruct (status_schema "status" _) as [|st] eqn:Est; [discriminate |].
  intros E. injection E as <-. cbn.
  apply z_string_inr in Et, Es, Ee, Ei. apply z_enum_inr in Est.
  destruct input. cbn in *. congruence.
Qed.

(** X11. A successful parse changes nothing: the object the schema
    returns holds the very strings and the very content it was given (no
    trimming, no default, no coercion), and parsing it again returns it
    again. *)
Theorem parse_round_trip (input : raw) (d : data) :
  blogSchema input = inr d ->
  input = to_input d /\ blogSchema (to_input d) = inr d.
Proof.
  intros E. pose proof (blogSchema_inr input d E) as I.
  split; [exact I |]. now rewrite <- I.
Qed.

Lemma parse_round_trip_witness :
  EditBlogPage.to_raw (EditBlogPage.values Samples.filled_form)
  = to_input MoreSamples.filled_data
  /\ blogSchema (to_input MoreSamples.filled_data)
     = inr MoreSamples.filled_data.
Proof.
  apply (parse_round_trip
           (EditBlogPage.to_raw (EditBlogPage.values Samples.filled_form))
           MoreSamples.filled_data).
  reflexivity.
Defined.

(** The issues of a string rule are about its field, and a refusal has
    at least one. *)
Lemma z_string_inl (checks : list string_check) (path : string) (v : value)
  (l : list issue) :
  z_string checks path v = inl l ->
  l <> [] /\ Forall (fun i => issue_path i = path) l.
Proof.
  destruct v as [| | b | k | s | o]; simpl;
    try (intros E; injection E as <-; split;
         [discriminate | repeat constructor]).
  assert (P : Forall (fun i => issue_path i = path)
                     (flat_map (run_check path s) checks)).
  { apply Forall_flat_map, Forall_forall. intros c _.
    destruct c as [n m | r m]; simpl.
    - destruct (String.length s <? n)%nat; repeat constructor.
    - destruct (test_anchored r s); repeat constructor. }
  destruct (flat_map (run_check path s) checks) as [|i r]; [discriminate |].
  intros E. injection E as <-. split; [discriminate | exact P].
Qed.

Lemma z_enum_inl (options : list string) (path : string) (v : value)
  (l : list issue) :
  z_enum options path v = inl l ->
  l <> [] /\ Forall (fun i => issue_path i = path) l.
Proof.
  destruct v as [| | b | k | s | o]; simpl;
    try (intros E; injection E as <-; split;
         [discriminate | repeat constructor]).
  destruct (existsb (String.eqb s) options); [discriminate |].
  intros E; injection E as <-; split; [discriminate | repeat constructor].
Qed.

(** What the object reports is what its fields report, in the order of
    the shape. *)
Lemma blogSchema_issues (input : raw) :
  issues_of (blogSchema input)
  = (issues_of (title_schema "title" (raw_title input))
     ++ issues_of (slug_schema "slug" (raw_slug input))
     ++ issues_of (excerpt_schema "excerpt" (raw_excerpt input))
     ++ issues_of (coverImage_schema "coverImage" (raw_coverImage input))
     ++ issues_of (status_schema "status" (raw_status input)))%list.
Proof.
  unfold blogSchema, content_schema, z_any.
  destruct (title_schema "title" _);
    destruct (slug_schema "slug" _);
    destruct (excerpt_schema "excerpt" _);
    destruct (coverImage_schema "coverImage" _);
    destruct (status_schema "status" _); reflexivity.
Qed.

Ltac some_issue :=
  let Z := fresh "Z" in
  intros Z;
  repeat match goal with
         | H : (_ ++ _)%list = [] |- _ =>
             apply app_eq_nil in H; destruct H
         end;
  congruence.

(** X12. A refusal of the schema always names its reasons: the list of
    issues is never empty, and every issue is about the title, the slug,
    the excerpt, the cover image or the status, never about the
    content. *)
Theorem refusal_has_issues (input : raw) (l : list issue) :
  blogSchema input = inl l ->
  l <> []
  /\ Forall (fun i =>
               In (issue_path i)
                  ["title"; "slug"; "excerpt"; "coverImage"; "status"]) l.
Proof.
  intros E.
  assert (L : l = issues_of (blogSchema input)) by now rewrite E.
  rewrite blogSchema_issues in L.
  pose proof (z_string_inl [min 5 "Title must be at least 5 characters"]
                "title" (raw_title input)) as Rt.
  pose proof (z_string_inl
                [min 5 "Slug must be at least 5 characters";
                 regex_check slug_regex
                   "Slug must contain only lowercase letters, numbers, and hyphens"]
                "slug" (raw_slug input)) as Rs.
  pose proof (z_string_inl [min 10 "Excerpt must be at least 10 characters"]
                "excerpt" (raw_excerpt input)) as Re.
  pose proof (z_string_inl [min 1 "Cover image is required"]
                "coverImage" (raw_coverImage input)) as Ri.
  pose proof (z_enum_inl ["draft"; "published"] "status" (raw_status input))
    as Rst.
  fold title_schema in Rt. fold slug_schema in Rs.
  fold excerpt_schema in Re. fold coverImage_schema in Ri.
  fold status_schema in Rst.
  unfold blogSchema, content_schema, z_any in E.
  destruct (title_schema "title" _) as [lt | t];
    destruct (slug_schema "slug" _) as [ls | s];
    destruct (excerpt_schema "excerpt" _) as [le | e];
    destruct (coverImage_schema "coverImage" _) as [li | i];
    destruct (status_schema "status" _) as [lst | st];
    try discriminate E; clear E; cbn [issues_of] in L;
    repeat match goal with
           | R : forall l, inl ?x = inl l -> _ |- _ =>
               destruct (R x eq_refl); clear R
           | R : forall l, inr _ = inl l -> _ |- _ => clear R
           end;
    subst l; rewrite ?app_nil_r; cbn [app];
    (split;
     [ some_issue
     | repeat (apply Forall_app; split);
       try constructor;
       match goal with
       | F : Forall (fun i => issue_path i = ?p) ?x |- Forall _ ?x =>
           eapply Forall_impl; [| exact F]; cbn;
           intros ? <-; cbn; auto 8
       end ]).
Qed.

Lemma refusal_has_issues_witness :
  [too_small "coverImage" 1 "Cover image is required"] <> []
  /\ Forall (fun i =>
               In (issue_path i)
                  ["title"; "slug"; "excerpt"; "coverImage"; "status"])
            [too_small "coverImage" 1 "Cover image is required"].
Proof.
  apply (refusal_has_issues
           (mkRaw (VString "Hello World") (VString "hello-world")
                  (VString "A first greeting.") VUndefined (VString "")
                  (VString "draft"))).
  reflexivity.
Defined.

End SchemaMore.

(* ===================================================================== *)
(** * More on the submission *)
(* ===================================================================== *)

Section SubmissionMore.

Import Handler Net Ui EditBlogPage.

(** X13. However the update request ends, [onSubmit] makes exactly that
    one request, leaves the submission flag off, and keeps the values of
    the form and the pending regenerations as they were. *)
Theorem onSubmit_settles
  (backend : request -> outcome reply) (data : Schema.data) (p : page) :
  let p' := exec (onSubmit backend data) p in
  isSubmitting p' = false
  /\ requests p' = (requests p ++ [update_request data])%list
  /\ values p' = values p
  /\ timers p' = timers p.
Proof.
  intros p'. subst p'. unfold onSubmit, fetch, update_request. run_handler.
  destruct (backend _) as [[[] [d | m]] | m]; cbn; repeat split; reflexivity.
Qed.

(** X14. When the update is answered with a status in 200-299 and a body
    that decodes, [onSubmit] shows one success notification, worded after
    the status of the object sent, navigates to the listing and logs
    nothing. *)
Theorem onSubmit_success
  (backend : request -> outcome reply) (data : Schema.data) (p : page)
  (r : reply) :
  backend (update_request data) = Resolved (mkResponse true (Json r)) ->
  let p' := exec (onSubmit backend data) p in
  toasts p'
  = (toasts p
     ++ [mkToast "Success"
           (if String.eqb (Schema.status data) "published"
            then "Blog updated & published successfully"
            else "Blog updated as draft successfully")
           None])%list
  /\ pushed p' = (pushed p ++ ["/dashboard/blogs"])%list
  /\ console p' = console p.
Proof.
  intros B p'. subst p'. unfold onSubmit, fetch. run_handler.
  unfold update_request in B. cbn in B. rewrite B. cbn.
  destruct (String.eqb (Schema.status data) "published");
    repeat split; reflexivity.
Qed.

Lemma onSubmit_success_witness :
  pushed (exec (onSubmit MoreSamples.accepting_backend MoreSamples.filled_data)
               Samples.filled_form)
  = ["/dashboard/blogs"].
Proof.
  exact (proj1 (proj2 (onSubmit_success MoreSamples.accepting_backend
                         MoreSamples.filled_data Samples.filled_form
                         (mkReply None) eq_refl))).
Defined.

(** X15. In every other case [onSubmit] stays on the form: it does not
    navigate, logs the error and shows one destructive notification.  Its
    text is the [error] of the decoded body when the status is outside
    200-299, or "Failed to update blog" when that property is missing or
    empty; the message of the failure when no response arrived; and the
    message of the decoding failure when the body does not decode, also
    under a status in 200-299. *)
Theorem onSubmit_failure
  (backend : request -> outcome reply) (data : Schema.data) (p : page) :
  let p' := exec (onSubmit backend data) p in
  let shown message :=
    pushed p' = pushed p
    /\ toasts p' = (toasts p ++ [mkToast "Error" message (Some "destructive")])%list
    /\ console p' = (console p ++ [mkLine "Error updating blog:" message])%list in
  match backend (update_request data) with
  | Resolved (mkResponse true (Json _)) => True
  | Resolved (mkResponse false (Json r)) =>
      shown (match error r with
             | Some "" | None => "Failed to update blog"
             | Some message => message
             end)
  | Resolved (mkResponse _ (NotJson message)) => shown message
  | Rejected message => shown message
  end.
Proof.
  intros p' shown. subst p' shown. unfold onSubmit, fetch. run_handler.
  unfold update_request. cbn.
  destruct (backend _) as [[[] [d | m]] | m]; cbn; auto.
  destruct d as [[[|c e] |]]; cbn; repeat split; reflexivity.
Qed.

(** X16. A click on either button on a form the schema refuses only
    stores the status of that button: no request is made, nothing is
    notified or logged, and the page is otherwise as before. *)
Theorem refused_form_is_not_sent
  (backend : request -> outcome reply) (p : page) :
  validated (set_status "draft" (values p)) = [] ->
  exec (click_update_draft backend) p = with_values (set_status "draft") p
  /\ exec (click_update_publish backend) p
     = with_values (set_status "published") p.
Proof.
  intros V.
  assert (V' : validated (set_status "published" (values p)) = []).
  { rewrite (validated_status "draft" "published"), V; cbn; auto. }
  unfold click_update_draft, click_update_publish, handleSubmit, exec, bind,
    modify, get, validated in *.
  cbn [values with_values fst snd].
  destruct (Schema.blogSchema (to_raw (set_status "draft" (values p))));
    [| discriminate V].
  destruct (Schema.blogSchema (to_raw (set_status "published" (values p))));
    [| discriminate V'].
  split; reflexivity.
Qed.

Lemma refused_form_is_not_sent_witness :
  exec (click_update_publish MoreSamples.accepting_backend) initial
  = with_values (set_status "published") initial.
Proof.
  exact (proj2 (refused_form_is_not_sent MoreSamples.accepting_backend
                  initial eq_refl)).
Defined.

End SubmissionMore.

(* ===================================================================== *)
(** * The image upload *)
(* ===================================================================== *)

Section Upload.

Import Handler Net Ui UploadImage.

(** X17. [handleUploadImage] posts the file once, as the entry [file] of
    a form, to [/api/upload], and never touches the values of the form.
    On a status in 200-299 with a body that decodes it returns the
    [secure_url] of the body and notifies nothing; in every other case it
    logs the error, shows one destructive notification and throws the
    error again to its caller. *)
Theorem handleUploadImage_outcome
  (backend : upload_request -> outcome upload_reply) (f : file) (w : world) :
  let req := mkUpload "/api/upload" "POST" [("file", f)] in
  let result := fst (handleUploadImage backend f w) in
  let w' := snd (handleUploadImage backend f w) in
  let failed message :=
    result = Thrown message
    /\ EditBlogPage.toasts (fst w')
       = (EditBlogPage.toasts (fst w)
          ++ [mkToast "Error" "Failed to upload image. Please try again."
                (Some "destructive")])%list
    /\ EditBlogPage.console (fst w')
       = (EditBlogPage.console (fst w)
          ++ [mkLine "Error uploading image:" message])%list in
  snd w' = (snd w ++ [req])%list
  /\ EditBlogPage.values (fst w') = EditBlogPage.values (fst w)
  /\ match backend req with
     | Resolved (mkResponse true (Json data)) =>
         result = Normal (secure_url data) /\ fst w' = fst w
     | Resolved (mkResponse true (NotJson message)) => failed message
     | Resolved (mkResponse false _) => failed "Failed to upload image"
     | Rejected message => failed message
     end.
Proof.
  intros req result w' failed. subst req result w' failed.
  unfold handleUploadImage, fetch. run_handler.
  destruct (backend _) as [[[] [d | m]] | m]; cbn; repeat split; reflexivity.
Qed.

End Upload.

(* ===================================================================== *)
(** * More on the listing page *)
(* ===================================================================== *)

Section ListingMore.

Import Handler Net Ui BlogsPage BlogsView.

(** X18. [handleDelete] without a target (none, or an empty identifier)
    does nothing at all.  With a target, however the request ends, the
    dialog is closed and the target forgotten, and the loading flag, the
    search term and the status filter are as before. *)
Theorem handleDelete_always
  (backend : request -> outcome unit) (p : page) :
  let p' := exec (handleDelete backend) p in
  if unset (blogToDelete p) then p' = p
  else deleteDialogOpen p' = false
       /\ blogToDelete p' = None
       /\ loading p' = loading p
       /\ searchTerm p' = searchTerm p
       /\ filterStatus p' = filterStatus p.
Proof.
  intros p'. subst p'. unfold handleDelete, fetch. run_handler.
  destruct (blogToDelete p) as [id |]; cbn; [| reflexivity].
  destruct (falsy id); [reflexivity |].
  destruct (backend _) as [[[] body] | message]; cbn;
    repeat split; reflexivity.
Qed.

Lemma filter_twice {A} (f : A -> bool) (l : list A) :
  filter f (filter f l) = filter f l.
Proof.
  induction l as [|x l IH]; [reflexivity |].
  cbn. destruct (f x) eqn:F; cbn; rewrite ?F, IH; reflexivity.
Qed.

(** One confirmed deletion, accepted by the backend. *)
Lemma delete_flow (backend : request -> outcome unit) (id : string) (p : page) :
  id <> "" ->
  succeeded (backend (DELETE ("/api/blogs/" ++ id))) = true ->
  blogs (exec (bind (confirmDelete id) (fun _ => handleDelete backend)) p)
  = filter (fun blog => negb (String.eqb (_id blog) id)) (blogs p).
Proof.
  intros N S.
  assert (F : falsy id = false) by (destruct id; [congruence | reflexivity]).
  revert S. unfold confirmDelete, handleDelete, fetch, succeeded.
  run_handler. rewrite F.
  destruct (backend _) as [[[] body] | message]; cbn;
    [reflexivity | discriminate | discriminate].
Qed.

(** X19. A deletion confirmed and accepted by the backend leaves no post
    with the target identifier, removes nothing when no post has it, and
    deleting the same identifier again changes nothing more. *)
Theorem delete_is_thorough
  (backend : request -> outcome unit) (id : string) (p : page) :
  id <> "" ->
  succeeded (backend (DELETE ("/api/blogs/" ++ id))) = true ->
  let delete := bind (confirmDelete id) (fun _ => handleDelete backend) in
  let once := exec delete p in
  Forall (fun blog => _id blog <> id) (blogs once)
  /\ (Forall (fun blog => _id blog <> id) (blogs p) -> blogs once = blogs p)
  /\ blogs (exec delete once) = blogs once.
Proof.
  intros N S delete once. subst delete once.
  rewrite !(delete_flow backend id _ N S).
  split; [| split].
  - apply Forall_forall. intros b I.
    apply filter_In in I as [_ I].
    apply negb_true_iff, String.eqb_neq in I. exact I.
  - intros A. apply forallb_filter_id, forallb_forall. intros b I.
    rewrite Forall_forall in A.
    apply negb_true_iff, String.eqb_neq. now apply A.
  - apply filter_twice.
Qed.

Lemma delete_is_thorough_witness :
  Forall (fun blog => _id blog <> "b1")
         (blogs (exec (bind (confirmDelete "b1")
                            (fun _ => handleDelete Samples.obliging_backend))
                      Samples.listing_with_pending_delete)).
Proof.
  assert (N : "b1" <> "") by discriminate.
  exact (proj1 (delete_is_thorough Samples.obliging_backend "b1"
                  Samples.listing_with_pending_delete N eq_refl)).
Defined.

(** X20. Typing in the search box only stores the term: the render that
    follows makes no request, whatever was typed, so the collection shown
    is not searched until the search button is used or the status filter
    changes. *)
Theorem typing_search_requests_nothing
  (backend : request -> outcome listing) (v : string) (p : page) :
  let p' := exec (dispatch backend (search_onChange v)) p in
  searchTerm p' = v
  /\ requests p' = requests p
  /\ blogs p' = blogs p
  /\ loading p' = loading p.
Proof.
  intros p'. subst p'.
  unfold dispatch, after_render, effect_runs, search_onChange. run_handler.
  assert (Sm : forall a, same_filter a a = true).
  { intros [a |]; [apply String.eqb_refl | reflexivity]. }
  rewrite Sm. cbn. repeat split; reflexivity.
Qed.

(** X21. Choosing a status reloads the collection exactly when the status
    differs from the one in force.  The one request made then is a GET of
    [/api/blogs] whose parameters are [search], with the term as typed so
    far (submitted or not), when that term is not empty, followed by
    [status], with the status chosen, when one is chosen. *)
Theorem selecting_status_reloads
  (backend : request -> outcome listing) (s : option string) (p : page) :
  let p' := exec (dispatch backend (select_status s)) p in
  let search :=
    match searchTerm p with
    | EmptyString => []
    | String _ _ => [("search", searchTerm p)]
    end in
  let status :=
    match s with
    | Some (String c r) => [("status", String c r)]
    | Some EmptyString | None => []
    end in
  (filterStatus p = s /\ requests p' = requests p)
  \/ (filterStatus p <> s
      /\ requests p' = (requests p ++ [GET "/api/blogs" (search ++ status)])%list).
Proof.
  intros p' search status. subst p' search status.
  unfold dispatch, after_render, effect_runs, select_status, fetchBlogs, fetch.
  run_handler.
  assert (Sm : same_filter (filterStatus p) s = true <-> filterStatus p = s).
  { destruct (filterStatus p) as [a |], s as [b |]; cbn;
      try (split; [discriminate | congruence]); [| tauto].
    rewrite String.eqb_eq. split; congruence. }
  destruct (same_filter (filterStatus p) s) eqn:E; cbn.
  - left. split; [now apply Sm | reflexivity].
  - right. split.
    + intros F. apply Sm in F. congruence.
    + destruct (backend _) as [[[] [data | message]] | message]; cbn;
        destruct (searchTerm p), s as [[|c r] |]; reflexivity.
Qed.



(** X23. The guard of the clear button fits [clearFilters]: with a
    status filter that is unset or a status, the button is disabled
    exactly on the pages that [clearFilters] would leave as they are. *)
Theorem clear_button_guard (p : page) :
  filterStatus p <> Some "" ->
  clear_disabled p = true <-> exec clearFilters p = p.
Proof.
  destruct p as [bl lo se fi di ta to co re].
  unfold clear_disabled, clearFilters. run_handler.
  unfold setFilterStatus, setSearchTerm. cbn. intros N.
  destruct se as [|c se]; destruct fi as [[|d fi] |]; cbn;
    split; intros E; try reflexivity; try discriminate E; congruence.
Qed.

Lemma clear_button_guard_witness :
  clear_disabled Samples.listing_with_pending_delete = true
  <-> exec clearFilters Samples.listing_with_pending_delete
      = Samples.listing_with_pending_delete.
Proof.
  apply (clear_button_guard Samples.listing_with_pending_delete).
  discriminate.
Defined.

End ListingMore.
